(** * soroban-rpc: the ledger store readers and the getTransaction method

    A shallow embedding of
      - package [db], file ledger.go: [StreamAllLedgers], [StreamLedgerRange],
        [GetLedger], [GetLedgerRange], [trimLedgers];
      - package [methods], file get_transaction.go: [GetTransaction];
    together with the parts of Go's standard library they call
    (encoding/hex, encoding/base64, fmt verbs, error values).

    Conventions.
      - [uint32], [int32], [int64] values are [Z]; the wrap-around of uint32
        arithmetic is written out with [u32].
      - a Go [string] is a [string] (a sequence of bytes), a [[]byte] is a
        [list ascii].
      - a Go [error] is an [option GoError]; [nil] is [None].
      - code that talks to the database or to an interface value runs in the
        state monad over [World]: the database and the trace of calls made.
      - the SQL of the squirrel builders is run on the table as a list of
        rows; a table may hold several rows of one sequence, so that the
        branch of GetLedger for such a table can be reached.

    Left out: the context argument and cancellation, the read lock around
    the cache (a call sees one world), the deferred q.Close(), and the
    transaction a ledgerWriter runs in. *)

From Stdlib Require Import ZArith List String Ascii Bool Lia DecimalString.
From Stdlib Require Import Sorting.Sorted Sorting.Permutation.
From ExtLib Require Import Structures.Monad Structures.MonadState.
From ExtLib Require Import Data.Monads.StateMonad.
Import ListNotations MonadNotation.

Local Open Scope string_scope.
Local Open Scope Z_scope.
Local Open Scope monad_scope.

(* ================================================================== *)
(** ** Go values *)

(** uint32 arithmetic wraps modulo 2^32. *)
Definition u32 (z : Z) : Z := z mod 2 ^ 32.

(** The byte of a string as a number, and back. *)
Definition byte_val (c : ascii) : Z := Z.of_N (N_of_ascii c).
Definition byte_of (z : Z) : ascii := ascii_of_N (Z.to_N z).

(** The double quote, for %q. *)
Definition dquote : string := String (ascii_of_nat 34) EmptyString.

(** Error values.  [ErrorString] is what errors.New and fmt.Errorf without %w
    build; [Wrapf prefix inner] is fmt.Errorf(prefix + "%w", inner);
    [ErrLength] and [InvalidByteError] are those of encoding/hex;
    [JrpcError] is a jrpc2.Error. *)
Inductive GoError : Type :=
| ErrorString (text : string)
| Wrapf (prefix : string) (inner : GoError)
| ErrLength
| InvalidByteError (b : ascii)
| JrpcError (code : Z) (message : string).

Definition error : Type := option GoError.
Abbreviation nil := (@None GoError) (only parsing).

Fixpoint GoError_eqb (a b : GoError) : bool :=
  match a, b with
  | ErrorString s, ErrorString t => String.eqb s t
  | Wrapf p x, Wrapf q y => String.eqb p q && GoError_eqb x y
  | ErrLength, ErrLength => true
  | InvalidByteError c, InvalidByteError d => Ascii.eqb c d
  | JrpcError c m, JrpcError d n => Z.eqb c d && String.eqb m n
  | _, _ => false
  end.

Module fmt.

(** %d *)
Definition d (z : Z) : string := NilZero.string_of_int (Z.to_int z).

(** %q of a string without characters that need escaping. *)
Definition q (s : string) : string := dquote ++ s ++ dquote.

Definition upper_hex_digit (z : Z) : ascii :=
  if z <? 10 then byte_of (48 + z) else byte_of (55 + z).

(** strconv.IsPrint on a rune below 0x100. *)
Definition IsPrint (r : Z) : bool :=
  if (32 <=? r) && (r <=? 126) then true
  else if (161 <=? r) && (r <=? 255) then negb (r =? 173)
  else false.

(** The UTF-8 encoding of a rune below 0x100. *)
Definition utf8 (r : Z) : string :=
  if r <? 128 then String (byte_of r) EmptyString
  else String (byte_of (Z.lor 192 (Z.shiftr r 6)))
         (String (byte_of (Z.lor 128 (Z.land r 63))) EmptyString).

(** %#U of rune(b) for a byte b: U+00XX, then the quoted character when it
    is printable. *)
Definition sharpU (b : ascii) : string :=
  let r := byte_val b in
  "U+00" ++ String (upper_hex_digit (Z.shiftr r 4))
              (String (upper_hex_digit (Z.land r 15)) EmptyString)
  ++ (if IsPrint r then " '" ++ utf8 r ++ "'" else "").

End fmt.

(** err.Error() *)
Fixpoint Error (e : GoError) : string :=
  match e with
  | ErrorString text => text
  | Wrapf prefix inner => prefix ++ Error inner
  | ErrLength => "encoding/hex: odd length hex string"
  | InvalidByteError b => "encoding/hex: invalid byte: " ++ fmt.sharpU b
  | JrpcError code message => "[" ++ fmt.d code ++ "] " ++ message
  end.

Module errors.

(** errors.Is(err, target): err or an error it wraps is target. *)
Fixpoint Is_ (e target : GoError) : bool :=
  GoError_eqb e target ||
  match e with
  | Wrapf _ inner => Is_ inner target
  | _ => false
  end.

Definition Is (err : error) (target : GoError) : bool :=
  match err with
  | None => false
  | Some e => Is_ e target
  end.

End errors.

Module hex.

(** reverseHexTable: the value of a hex digit, 0xff for any other byte. *)
Definition reverseHexTable (c : ascii) : Z :=
  let v := byte_val c in
  if (48 <=? v) && (v <=? 57) then v - 48
  else if (97 <=? v) && (v <=? 102) then v - 97 + 10
  else if (65 <=? v) && (v <=? 70) then v - 65 + 10
  else 255.

(** DecodedLen(x) = x / 2 *)
Definition DecodedLen (x : Z) : Z := x / 2.

(** Decode(dst, src): the bytes written to dst and the error.  The loop
    takes the source two bytes at a time; a byte left over at the end is
    reported as an invalid byte when it is one, as ErrLength otherwise. *)
Fixpoint Decode (src : list ascii) : list ascii * error :=
  match src with
  | [] => ([], nil)
  | [p] =>
      if 15 <? reverseHexTable p then ([], Some (InvalidByteError p))
      else ([], Some ErrLength)
  | p :: q :: rest =>
      let a := reverseHexTable p in
      let b := reverseHexTable q in
      if 15 <? a then ([], Some (InvalidByteError p))
      else if 15 <? b then ([], Some (InvalidByteError q))
      else
        let '(written, err) := Decode rest in
        (byte_of (Z.lor (Z.shiftl a 4) b) :: written, err)
  end.

End hex.

Module base64.

(** The alphabet of StdEncoding. *)
Definition encodeStd : string :=
  "ABCDEFGHIJKLMNOPQRSTUVWXYZabcdefghijklmnopqrstuvwxyz0123456789+/".

Definition enc (i : Z) : ascii :=
  match String.get (Z.to_nat (Z.land i 63)) encodeStd with
  | Some c => c
  | None => "="%char
  end.

(** StdEncoding.EncodeToString: three bytes become four characters; a
    remainder of one or two bytes is padded with '='. *)
Fixpoint EncodeToString (src : list ascii) : string :=
  match src with
  | [] => ""
  | [a] =>
      let val := Z.shiftl (byte_val a) 16 in
      String (enc (Z.shiftr val 18)) (String (enc (Z.shiftr val 12)) "==")
  | [a; b] =>
      let val := Z.lor (Z.shiftl (byte_val a) 16) (Z.shiftl (byte_val b) 8) in
      String (enc (Z.shiftr val 18)) (String (enc (Z.shiftr val 12))
        (String (enc (Z.shiftr val 6)) "="))
  | a :: b :: c :: rest =>
      let val := Z.lor (Z.lor (Z.shiftl (byte_val a) 16) (Z.shiftl (byte_val b) 8))
                       (byte_val c) in
      String (enc (Z.shiftr val 18)) (String (enc (Z.shiftr val 12))
        (String (enc (Z.shiftr val 6)) (String (enc val)
          (EncodeToString rest))))
  end.

End base64.

Module jrpc2.
Definition InvalidParams : Z := -32602.
Definition InternalError : Z := -32603.
End jrpc2.

Module xdr.

(** xdr.LedgerCloseMeta, as far as the store reads it: the two accessors
    LedgerSequence() and LedgerCloseTime(), and the rest of the record. *)
Record LedgerCloseMeta : Type := {
  LedgerSequence : Z;          (* uint32 *)
  LedgerCloseTime : Z;         (* int64 *)
  body : list ascii
}.

(** xdr.LedgerCloseMeta{} *)
Definition zero : LedgerCloseMeta :=
  {| LedgerSequence := 0; LedgerCloseTime := 0; body := [] |}.

(** xdr.Hash is [32]byte. *)
Definition Hash : Type := list ascii.
Definition Hash_len : Z := 32.

(** var h xdr.Hash, after [written] has been stored at its start. *)
Definition Hash_of (written : list ascii) : Hash :=
  firstn 32 (written ++ repeat Ascii.zero 32).

End xdr.

Module ledgerbucketwindow.

Record LedgerInfo : Type := {
  Sequence : Z;                (* uint32 *)
  CloseTime : Z                (* int64 *)
}.

Record LedgerRange : Type := {
  FirstLedger : LedgerInfo;
  LastLedger : LedgerInfo
}.

(** ledgerbucketwindow.LedgerRange{} *)
Definition zero : LedgerRange :=
  {| FirstLedger := {| Sequence := 0; CloseTime := 0 |};
     LastLedger := {| Sequence := 0; CloseTime := 0 |} |}.

End ledgerbucketwindow.

(* ================================================================== *)
(** ** The database under package db

    One table, ledger_close_meta(sequence, meta).  A row keeps the bytes of
    its meta column as what unmarshalling them gives. *)

Inductive Blob : Type :=
| Marshaled (lcm : xdr.LedgerCloseMeta)   (* bytes that unmarshal to lcm *)
| Malformed (why : GoError).               (* bytes on which unmarshalling fails *)

Record Row : Type := {
  sequence : Z;
  meta : Blob
}.

(** db.cache: the latest ledger, zero before any ledger is known. *)
Record Cache : Type := {
  latestLedgerSeq : Z;           (* uint32 *)
  latestLedgerCloseTime : Z      (* int64 *)
}.

(** What the driver does with a statement: run it, refuse it, or run it and
    lose the cursor after it has given n rows. *)
Inductive Health : Type :=
| Healthy
| Unavailable (e : GoError)
| BreaksAfter (n : nat) (e : GoError).

Record DB : Type := {
  ledger_close_meta : list Row;
  cache : Cache;
  health : Health
}.

(** The conditions the squirrel builders of ledger.go put on the column
    sequence. *)
Inductive Sqlizer : Type :=
| Eq (v : Z)                     (* sq.Eq{"sequence": v} *)
| Lt (v : Z)                     (* sq.Lt{"sequence": v} *)
| GtOrEq (v : Z)                 (* sq.GtOrEq{"sequence": v} *)
| LtOrEq (v : Z)                 (* sq.LtOrEq{"sequence": v} *)
| EqMin                          (* sequence = (SELECT MIN(sequence) FROM ledger_close_meta) *)
| EqMax                          (* sequence = (SELECT MAX(sequence) FROM ledger_close_meta) *)
| Or (a b : Sqlizer).            (* sq.Or{a, b} *)

(** sq.Select("meta").From(ledger_close_meta) with its Where clauses, which
    are joined by AND, and whether it is ordered by sequence asc. *)
Record SelectBuilder : Type := {
  Where : list Sqlizer;
  OrderBy : bool
}.

(** sq.Delete(ledger_close_meta) with its Where clauses. *)
Record DeleteBuilder : Type := {
  DeleteWhere : list Sqlizer
}.

Definition min_sequence (t : list Row) : option Z :=
  match t with
  | [] => None
  | r :: rest => Some (fold_left (fun m x => Z.min m (sequence x)) rest (sequence r))
  end.

Definition max_sequence (t : list Row) : option Z :=
  match t with
  | [] => None
  | r :: rest => Some (fold_left (fun m x => Z.max m (sequence x)) rest (sequence r))
  end.

Fixpoint holds (t : list Row) (c : Sqlizer) (r : Row) : bool :=
  match c with
  | Eq v => sequence r =? v
  | Lt v => sequence r <? v
  | GtOrEq v => v <=? sequence r
  | LtOrEq v => sequence r <=? v
  | EqMin => match min_sequence t with Some m => sequence r =? m | None => false end
  | EqMax => match max_sequence t with Some m => sequence r =? m | None => false end
  | Or a b => holds t a r || holds t b r
  end.

Definition matches (t : list Row) (conds : list Sqlizer) (r : Row) : bool :=
  forallb (fun c => holds t c r) conds.

(** ORDER BY sequence ASC: a stable insertion sort. *)
Fixpoint insert_row (r : Row) (sorted : list Row) : list Row :=
  match sorted with
  | [] => [r]
  | x :: rest =>
      if sequence r <=? sequence x then r :: x :: rest
      else x :: insert_row r rest
  end.

Definition order_by_sequence (rows : list Row) : list Row :=
  fold_right insert_row [] rows.

(** The rows a SELECT gives: the rows of the table that satisfy every Where
    clause, in the table's order unless the statement orders them. *)
Definition select_rows (t : list Row) (q : SelectBuilder) : list Row :=
  let hit := filter (matches t (Where q)) t in
  if OrderBy q then order_by_sequence hit else hit.

(** The rows a DELETE leaves. *)
Definition delete_rows (t : list Row) (d : DeleteBuilder) : list Row :=
  filter (fun r => negb (matches t (DeleteWhere d) r)) t.

(** An open cursor (sqlx.Rows): the meta columns still to come and what
    Err() reports once they are used up. *)
Record Rows : Type := {
  pending : list Blob;
  Err : error
}.

(** rows.Scan(&closeMeta) on the next row. *)
Definition Scan (b : Blob) : xdr.LedgerCloseMeta * error :=
  match b with
  | Marshaled lcm => (lcm, nil)
  | Malformed why => (xdr.zero, Some why)
  end.

(** ** The world: the database and the calls made so far *)

Inductive Event : Type :=
| EvQuery (q : SelectBuilder)            (* a SELECT sent to the database *)
| EvExec (d : DeleteBuilder)             (* a DELETE sent to the database *)
| EvGetTransaction (hash : xdr.Hash)     (* TransactionReader.GetTransaction *)
| EvSink (lcm : xdr.LedgerCloseMeta)     (* a call of the StreamLedgerFn *)
| EvLogError (msg : string).             (* log.Errorf *)

Record World : Type := {
  database : DB;
  trace : list Event
}.

Definition M : Type -> Type := state World.

Definition log (e : Event) (w : World) : World :=
  {| database := database w; trace := trace w ++ [e] |}.

Definition emit (e : Event) : M unit :=
  modify (log e) ;;
  ret tt.

(** What the driver answers to a SELECT: a cursor or an error. *)
Definition open_cursor (d : DB) (sql : SelectBuilder) : Rows * error :=
  let blobs := map meta (select_rows (ledger_close_meta d) sql) in
  match health d with
  | Healthy => ({| pending := blobs; Err := nil |}, nil)
  | Unavailable e => ({| pending := []; Err := nil |}, Some e)
  | BreaksAfter n e =>
      if (n <? List.length blobs)%nat
      then ({| pending := firstn n blobs; Err := Some e |}, nil)
      else ({| pending := blobs; Err := nil |}, nil)
  end.

(** db.Query(ctx, sql): send the statement, get a cursor or an error. *)
Definition Query (sql : SelectBuilder) : M (Rows * error) :=
  emit (EvQuery sql) ;;
  w <- get ;;
  ret (open_cursor (database w) sql).

(** The scan loop of db.Select: every row into the destination slice, the
    first failing Scan ends it, rows.Err() is reported at the end. *)
Fixpoint scan_all (blobs : list Blob) (final : error)
  : list xdr.LedgerCloseMeta * error :=
  match blobs with
  | [] => ([], final)
  | b :: rest =>
      match Scan b with
      | (_, Some e) => ([], Some e)
      | (lcm, None) =>
          let '(dest, err) := scan_all rest final in (lcm :: dest, err)
      end
  end.

Definition scan_cursor (opened : Rows * error)
  : list xdr.LedgerCloseMeta * error :=
  match opened with
  | (_, Some e) => ([], Some e)
  | (q, None) => scan_all (pending q) (Err q)
  end.

(** db.Select(ctx, &dest, sql) *)
Definition Select (sql : SelectBuilder) : M (list xdr.LedgerCloseMeta * error) :=
  opened <- Query sql ;;
  ret (scan_cursor opened).

(** What the driver does with a DELETE: the rows go unless it refuses the
    statement. *)
Definition run_delete (d : DB) (stmt : DeleteBuilder) : DB * error :=
  match health d with
  | Unavailable e => (d, Some e)
  | _ => ({| ledger_close_meta := delete_rows (ledger_close_meta d) stmt;
             cache := cache d;
             health := health d |}, nil)
  end.

(** Exec of a DELETE. *)
Definition Exec (stmt : DeleteBuilder) : M error :=
  emit (EvExec stmt) ;;
  w <- get ;;
  let '(d, err) := run_delete (database w) stmt in
  put {| database := d; trace := trace w |} ;;
  ret err.

(** sq.Insert(ledger_close_meta).Values(sequence, ledger): the ledger is
    written to the column meta as the bytes it marshals to. *)
Record InsertBuilder : Type := {
  ValuesSequence : Z;
  ValuesMeta : xdr.LedgerCloseMeta
}.

(** Modelled from the spec: the schema of the table is declared outside
    ledger.go, ledger_close_meta(sequence PRIMARY KEY, meta BLOB), so an
    INSERT of a sequence the table holds is refused; [conflict] stands for
    the error of the driver then.  Otherwise the row is added after the rows
    the table holds, unless the driver refuses the statement. *)
Definition run_insert (conflict : GoError) (d : DB) (stmt : InsertBuilder)
  : DB * error :=
  match health d with
  | Unavailable e => (d, Some e)
  | _ =>
      if existsb (fun r => sequence r =? ValuesSequence stmt) (ledger_close_meta d)
      then (d, Some conflict)
      else ({| ledger_close_meta :=
                 ledger_close_meta d
                 ++ [{| sequence := ValuesSequence stmt;
                        meta := Marshaled (ValuesMeta stmt) |}];
               cache := cache d;
               health := health d |}, nil)
  end.

(** Exec of an INSERT.  The trace keeps the statements of the readers and of
    trimming; an INSERT leaves it as it is. *)
Definition ExecInsert (conflict : GoError) (stmt : InsertBuilder) : M error :=
  w <- get ;;
  let '(d, err) := run_insert conflict (database w) stmt in
  put {| database := d; trace := trace w |} ;;
  ret err.

(* ================================================================== *)
(** ** package db, ledger.go *)

Module db.

Import ledgerbucketwindow.

Definition ledgerCloseMetaTableName : string := "ledger_close_meta".

(** type StreamLedgerFn func(xdr.LedgerCloseMeta) error.  The function is
    a closure: S is the state it captures, which a call may change. *)
Definition StreamLedgerFn (S : Type) : Type :=
  xdr.LedgerCloseMeta -> S -> S * error.

(** f(closeMeta) *)
Definition call_sink {S : Type} (f : StreamLedgerFn S)
    (closeMeta : xdr.LedgerCloseMeta) (s : S) : M (S * error) :=
  emit (EvSink closeMeta) ;;
  ret (f closeMeta s).

(** The loop shared by StreamAllLedgers and StreamLedgerRange:
      for q.Next() { Scan; f(closeMeta) }; return q.Err() *)
Fixpoint stream_rows {S : Type} (f : StreamLedgerFn S)
    (blobs : list Blob) (final : error) (s : S) : M (S * error) :=
  match blobs with
  | [] => ret (s, final)
  | b :: rest =>
      match Scan b with
      | (_, Some e) => ret (s, Some e)
      | (closeMeta, None) =>
          '(s', err) <- call_sink f closeMeta s ;;
          match err with
          | Some e => ret (s', Some e)
          | None => stream_rows f rest final s'
          end
      end
  end.

(** StreamAllLedgers runs f over all the ledgers in the database (until f
    errors or signals it's done). *)
Definition StreamAllLedgers {S : Type} (f : StreamLedgerFn S) (s : S)
  : M (S * error) :=
  let sql := {| Where := []; OrderBy := true |} in
  '(q, err) <- Query sql ;;
  match err with
  | Some e => ret (s, Some e)
  | None => stream_rows f (pending q) (Err q) s
  end.

(** StreamLedgerRange runs f over inclusive (startLedger, endLedger) (until
    f errors or signals it's done). *)
Definition StreamLedgerRange {S : Type} (startLedger endLedger : Z)
    (f : StreamLedgerFn S) (s : S) : M (S * error) :=
  let sql := {| Where := [GtOrEq startLedger; LtOrEq endLedger];
                OrderBy := true |} in
  '(q, err) <- Query sql ;;
  match err with
  | Some e => ret (s, Some e)
  | None => stream_rows f (pending q) (Err q) s
  end.

(** GetLedger fetches a single ledger from the db. *)
Definition GetLedger (sequence : Z) : M (xdr.LedgerCloseMeta * bool * error) :=
  let sql := {| Where := [Eq sequence]; OrderBy := false |} in
  '(results, err) <- Select sql ;;
  match err with
  | Some e => ret (xdr.zero, false, Some e)
  | None =>
      match results with
      | [] => ret (xdr.zero, false, nil)
      | [r] => ret (r, true, nil)
      | _ =>
          ret (xdr.zero, false,
               Some (ErrorString
                 ("multiple lcm entries (" ++ fmt.d (Z.of_nat (List.length results))
                  ++ ") for sequence " ++ fmt.d sequence
                  ++ " in table " ++ fmt.q ledgerCloseMetaTableName)))
      end
  end.

(** The statement of the warm path: the row of the oldest ledger. *)
Definition oldest_query : SelectBuilder :=
  {| Where := [EqMin]; OrderBy := false |}.

(** The statement of the cold path: the rows of the oldest and of the
    latest ledger, oldest first. *)
Definition oldest_latest_query : SelectBuilder :=
  {| Where := [Or EqMin EqMax]; OrderBy := true |}.

Definition info_of (lcm : xdr.LedgerCloseMeta) : LedgerInfo :=
  {| Sequence := xdr.LedgerSequence lcm; CloseTime := xdr.LedgerCloseTime lcm |}.

Section Sentinels.

(** var ErrEmptyDB, declared elsewhere in package db. *)
Variable ErrEmptyDB : GoError.

(** GetLedgerRange pulls the min/max ledger sequence numbers from the
    meta table. *)
Definition GetLedgerRange : M (LedgerRange * error) :=
  w <- get ;;
  let latestLedgerSeqCache := latestLedgerSeq (cache (database w)) in
  let latestLedgerCloseTimeCache := latestLedgerCloseTime (cache (database w)) in
  if negb (latestLedgerSeqCache =? 0) then
    '(lcm, err) <- Select oldest_query ;;
    match err with
    | Some e => ret (zero, Some (Wrapf "couldn't query ledger range: " e))
    | None =>
        match lcm with
        | [] => ret (zero, Some ErrEmptyDB)
        | lcm0 :: _ =>
            ret ({| FirstLedger := info_of lcm0;
                    LastLedger := {| Sequence := latestLedgerSeqCache;
                                     CloseTime := latestLedgerCloseTimeCache |} |},
                 nil)
        end
    end
  else
    '(lcms, err) <- Select oldest_latest_query ;;
    match err with
    | Some e => ret (zero, Some (Wrapf "couldn't query ledger range: " e))
    | None =>
        match lcms with
        | [] => ret (zero, Some ErrEmptyDB)
        | lcm0 :: _ =>
            ret ({| FirstLedger := info_of lcm0;
                    LastLedger := info_of (last lcms lcm0) |},
                 nil)
        end
    end.

End Sentinels.

(** trimLedgers removes all ledgers which fall outside the retention
    window. *)
Definition trimLedgers (latestLedgerSeq retentionWindow : Z) : M error :=
  if u32 (latestLedgerSeq + 1) <=? retentionWindow then ret nil
  else
    let cutoff := u32 (u32 (latestLedgerSeq + 1) - retentionWindow) in
    Exec {| DeleteWhere := [Lt cutoff] |}.

(** type LedgerReader interface *)
Record LedgerReader : Type := {
  LedgerReader_GetLedger : Z -> M (xdr.LedgerCloseMeta * bool * error);
  LedgerReader_StreamAllLedgers :
    forall S : Type, StreamLedgerFn S -> S -> M (S * error);
  LedgerReader_GetLedgerRange : M (LedgerRange * error);
  LedgerReader_StreamLedgerRange :
    forall S : Type, Z -> Z -> StreamLedgerFn S -> S -> M (S * error)
}.

(** NewLedgerReader: the ledgerReader over the database of the world. *)
Definition NewLedgerReader (ErrEmptyDB : GoError) : LedgerReader :=
  {| LedgerReader_GetLedger := GetLedger;
     LedgerReader_StreamAllLedgers := @StreamAllLedgers;
     LedgerReader_GetLedgerRange := GetLedgerRange ErrEmptyDB;
     LedgerReader_StreamLedgerRange := @StreamLedgerRange |}.

(** db.Transaction, declared elsewhere in package db: the fields
    GetTransaction reads. *)
Record Transaction : Type := {
  Result : list ascii;
  Meta : list ascii;
  Envelope : list ascii;
  Events : list (list ascii);
  FeeBump : bool;
  ApplicationOrder : Z;        (* int32 *)
  Successful : bool;
  Ledger : LedgerInfo
}.

(** type TransactionReader interface, declared elsewhere in package db. *)
Record TransactionReader : Type := {
  TransactionReader_GetTransaction : xdr.Hash -> M (Transaction * error)
}.

(** InsertLedger inserts a ledger in the db. *)
Definition InsertLedger (conflict : GoError) (ledger : xdr.LedgerCloseMeta)
  : M error :=
  ExecInsert conflict {| ValuesSequence := xdr.LedgerSequence ledger;
                         ValuesMeta := ledger |}.

End db.

(* ================================================================== *)
(** ** package methods, get_transaction.go *)

Module methods.

Import ledgerbucketwindow.

Definition TransactionStatusSuccess : string := "SUCCESS".
Definition TransactionStatusNotFound : string := "NOT_FOUND".
Definition TransactionStatusFailed : string := "FAILED".

(** json.RawMessage *)
Definition RawMessage : Type := string.

(** GetTransactionResponse is the response for the Soroban-RPC
    getTransaction() endpoint. *)
Record GetTransactionResponse : Type := {
  Status : string;
  LatestLedger : Z;                          (* uint32 *)
  LatestLedgerCloseTime : Z;                 (* int64 *)
  OldestLedger : Z;                          (* uint32 *)
  OldestLedgerCloseTime : Z;                 (* int64 *)
  ApplicationOrder : Z;                      (* int32, omitempty *)
  FeeBump : bool;                            (* omitempty *)
  EnvelopeXDR : string;                      (* omitempty *)
  EnvelopeJSON : RawMessage;                 (* omitempty *)
  ResultXDR : string;                        (* omitempty *)
  ResultJSON : RawMessage;                   (* omitempty *)
  ResultMetaXDR : string;                    (* omitempty *)
  ResultMetaJSON : RawMessage;               (* omitempty *)
  Ledger : Z;                                (* uint32, omitempty *)
  LedgerCloseTime : Z;                       (* int64, omitempty *)
  DiagnosticEventsXDR : list string;         (* omitempty *)
  DiagnosticEventsJSON : list RawMessage     (* omitempty *)
}.

Record GetTransactionRequest : Type := {
  Hash : string;
  Format : string
}.

(** GetTransactionResponse{} *)
Definition zero : GetTransactionResponse :=
  {| Status := ""; LatestLedger := 0; LatestLedgerCloseTime := 0;
     OldestLedger := 0; OldestLedgerCloseTime := 0;
     ApplicationOrder := 0; FeeBump := false;
     EnvelopeXDR := ""; EnvelopeJSON := "";
     ResultXDR := ""; ResultJSON := "";
     ResultMetaXDR := ""; ResultMetaJSON := "";
     Ledger := 0; LedgerCloseTime := 0;
     DiagnosticEventsXDR := []; DiagnosticEventsJSON := [] |}.

(** The assignments to the fields of [response], in the groups in which
    GetTransaction makes them. *)
Definition set_range (r : GetTransactionResponse) (storeRange : LedgerRange)
  : GetTransactionResponse :=
  {| Status := Status r;
     LatestLedger := Sequence (LastLedger storeRange);
     LatestLedgerCloseTime := CloseTime (LastLedger storeRange);
     OldestLedger := Sequence (FirstLedger storeRange);
     OldestLedgerCloseTime := CloseTime (FirstLedger storeRange);
     ApplicationOrder := ApplicationOrder r; FeeBump := FeeBump r;
     EnvelopeXDR := EnvelopeXDR r; EnvelopeJSON := EnvelopeJSON r;
     ResultXDR := ResultXDR r; ResultJSON := ResultJSON r;
     ResultMetaXDR := ResultMetaXDR r; ResultMetaJSON := ResultMetaJSON r;
     Ledger := Ledger r; LedgerCloseTime := LedgerCloseTime r;
     DiagnosticEventsXDR := DiagnosticEventsXDR r;
     DiagnosticEventsJSON := DiagnosticEventsJSON r |}.

Definition set_Status (r : GetTransactionResponse) (status : string)
  : GetTransactionResponse :=
  {| Status := status;
     LatestLedger := LatestLedger r;
     LatestLedgerCloseTime := LatestLedgerCloseTime r;
     OldestLedger := OldestLedger r;
     OldestLedgerCloseTime := OldestLedgerCloseTime r;
     ApplicationOrder := ApplicationOrder r; FeeBump := FeeBump r;
     EnvelopeXDR := EnvelopeXDR r; EnvelopeJSON := EnvelopeJSON r;
     ResultXDR := ResultXDR r; ResultJSON := ResultJSON r;
     ResultMetaXDR := ResultMetaXDR r; ResultMetaJSON := ResultMetaJSON r;
     Ledger := Ledger r; LedgerCloseTime := LedgerCloseTime r;
     DiagnosticEventsXDR := DiagnosticEventsXDR r;
     DiagnosticEventsJSON := DiagnosticEventsJSON r |}.

Definition set_placement (r : GetTransactionResponse) (tx : db.Transaction)
  : GetTransactionResponse :=
  {| Status := Status r;
     LatestLedger := LatestLedger r;
     LatestLedgerCloseTime := LatestLedgerCloseTime r;
     OldestLedger := OldestLedger r;
     OldestLedgerCloseTime := OldestLedgerCloseTime r;
     ApplicationOrder := db.ApplicationOrder tx; FeeBump := db.FeeBump tx;
     EnvelopeXDR := EnvelopeXDR r; EnvelopeJSON := EnvelopeJSON r;
     ResultXDR := ResultXDR r; ResultJSON := ResultJSON r;
     ResultMetaXDR := ResultMetaXDR r; ResultMetaJSON := ResultMetaJSON r;
     Ledger := Sequence (db.Ledger tx);
     LedgerCloseTime := CloseTime (db.Ledger tx);
     DiagnosticEventsXDR := DiagnosticEventsXDR r;
     DiagnosticEventsJSON := DiagnosticEventsJSON r |}.

Definition set_json (r : GetTransactionResponse)
    (result envelope meta : RawMessage) (diagEvents : list RawMessage)
  : GetTransactionResponse :=
  {| Status := Status r;
     LatestLedger := LatestLedger r;
     LatestLedgerCloseTime := LatestLedgerCloseTime r;
     OldestLedger := OldestLedger r;
     OldestLedgerCloseTime := OldestLedgerCloseTime r;
     ApplicationOrder := ApplicationOrder r; FeeBump := FeeBump r;
     EnvelopeXDR := EnvelopeXDR r; EnvelopeJSON := envelope;
     ResultXDR := ResultXDR r; ResultJSON := result;
     ResultMetaXDR := ResultMetaXDR r; ResultMetaJSON := meta;
     Ledger := Ledger r; LedgerCloseTime := LedgerCloseTime r;
     DiagnosticEventsXDR := DiagnosticEventsXDR r;
     DiagnosticEventsJSON := diagEvents |}.

Definition set_xdr (r : GetTransactionResponse)
    (result envelope meta : string) (diagEvents : list string)
  : GetTransactionResponse :=
  {| Status := Status r;
     LatestLedger := LatestLedger r;
     LatestLedgerCloseTime := LatestLedgerCloseTime r;
     OldestLedger := OldestLedger r;
     OldestLedgerCloseTime := OldestLedgerCloseTime r;
     ApplicationOrder := ApplicationOrder r; FeeBump := FeeBump r;
     EnvelopeXDR := envelope; EnvelopeJSON := EnvelopeJSON r;
     ResultXDR := result; ResultJSON := ResultJSON r;
     ResultMetaXDR := meta; ResultMetaJSON := ResultMetaJSON r;
     Ledger := Ledger r; LedgerCloseTime := LedgerCloseTime r;
     DiagnosticEventsXDR := diagEvents;
     DiagnosticEventsJSON := DiagnosticEventsJSON r |}.

(** What get_transaction.go uses of packages db and methods and is
    declared in other files. *)
Record Declared : Type := {
  ErrNoTransaction : GoError;                (* db.ErrNoTransaction *)
  FormatJSON : string;
  IsValidFormat : string -> error;
  transactionToJSON :
    db.Transaction -> RawMessage * RawMessage * RawMessage * error;
  jsonifySlice : list (list ascii) -> list RawMessage * error;
  base64EncodeSlice : list (list ascii) -> list string
}.

(** reader.GetTransaction(ctx, txHash) *)
Definition call_reader (reader : db.TransactionReader) (txHash : xdr.Hash)
  : M (db.Transaction * error) :=
  emit (EvGetTransaction txHash) ;;
  db.TransactionReader_GetTransaction reader txHash.

Section GetTransaction.

Variable env : Declared.

(** The switch on request.Format and the status that follows it. *)
Definition render (request : GetTransactionRequest)
    (response : GetTransactionResponse) (tx : db.Transaction)
  : GetTransactionResponse * error :=
  let done (response : GetTransactionResponse) :=
    (set_Status response
       (if db.Successful tx then TransactionStatusSuccess
        else TransactionStatusFailed), nil) in
  if String.eqb (Format request) (FormatJSON env) then
    let '(result, envelope, meta, convErr) := transactionToJSON env tx in
    match convErr with
    | Some e => (response, Some (JrpcError jrpc2.InternalError (Error e)))
    | None =>
        let '(diagEvents, convErr) := jsonifySlice env (db.Events tx) in
        match convErr with
        | Some e => (response, Some (JrpcError jrpc2.InternalError (Error e)))
        | None => done (set_json response result envelope meta diagEvents)
        end
    end
  else
    done (set_xdr response
            (base64.EncodeToString (db.Result tx))
            (base64.EncodeToString (db.Envelope tx))
            (base64.EncodeToString (db.Meta tx))
            (base64EncodeSlice env (db.Events tx))).

Definition GetTransaction (reader : db.TransactionReader)
    (ledgerReader : db.LedgerReader) (request : GetTransactionRequest)
  : M (GetTransactionResponse * error) :=
  match IsValidFormat env (Format request) with
  | Some err =>
      ret (zero, Some (JrpcError jrpc2.InvalidParams (Error err)))
  | None =>
  (* parse hash *)
  let len := Z.of_nat (String.length (Hash request)) in
  if negb (hex.DecodedLen len =? xdr.Hash_len) then
    ret (zero, Some (JrpcError jrpc2.InvalidParams
                       ("unexpected hash length (" ++ fmt.d len ++ ")")))
  else
  let '(written, err) := hex.Decode (list_ascii_of_string (Hash request)) in
  let txHash := xdr.Hash_of written in
  match err with
  | Some e =>
      ret (zero, Some (JrpcError jrpc2.InvalidParams
                         ("incorrect hash: " ++ Error e)))
  | None =>
  '(storeRange, err) <- db.LedgerReader_GetLedgerRange ledgerReader ;;
  match err with
  | Some e =>
      ret (zero, Some (JrpcError jrpc2.InternalError
                         ("unable to get ledger range: " ++ Error e)))
  | None =>
  '(tx, err) <- call_reader reader txHash ;;
  let response := set_range zero storeRange in
  if errors.Is err (ErrNoTransaction env) then
    ret (set_Status response TransactionStatusNotFound, nil)
  else
    match err with
    | Some e =>
        emit (EvLogError "failed to fetch transaction") ;;
        ret (response, Some (JrpcError jrpc2.InternalError (Error e)))
    | None => ret (render request (set_placement response tx) tx)
    end
  end end end.

End GetTransaction.

(** encoding/json with omitempty: a slice field is written when it is not
    empty. *)
Definition has_diagnostic_events (r : GetTransactionResponse) : bool :=
  negb (List.length (DiagnosticEventsXDR r) =? 0)%nat
  || negb (List.length (DiagnosticEventsJSON r) =? 0)%nat.

End methods.

(* ================================================================== *)
(** ** Well-formed inputs *)

(** The row InsertLedger writes for a ledger:
    Values(ledger.LedgerSequence(), ledger). *)
Definition row_of (lcm : xdr.LedgerCloseMeta) : Row :=
  {| sequence := xdr.LedgerSequence lcm; meta := Marshaled lcm |}.

(** A row is as InsertLedger writes it. *)
Definition row_ok (r : Row) : bool :=
  match meta r with
  | Marshaled lcm => xdr.LedgerSequence lcm =? sequence r
  | Malformed _ => false
  end.

(** The ledger a row holds. *)
Definition ledger_of (r : Row) : xdr.LedgerCloseMeta := fst (Scan (meta r)).

(** The rows with a sequence in the inclusive range. *)
Definition in_range (startLedger endLedger : Z) (r : Row) : bool :=
  (startLedger <=? sequence r) && (sequence r <=? endLedger).

(** The calls a stream makes on the ledgers of a cursor that neither fails
    to scan nor breaks: the ledgers handed to f, the state f is left in, and
    the error returned. *)
Fixpoint feed {S : Type} (f : db.StreamLedgerFn S)
    (ledgers : list xdr.LedgerCloseMeta) (s : S)
  : list xdr.LedgerCloseMeta * S * error :=
  match ledgers with
  | [] => ([], s, nil)
  | closeMeta :: rest =>
      match f closeMeta s with
      | (s', Some e) => ([closeMeta], s', Some e)
      | (s', None) =>
          let '(delivered, s'', err) := feed f rest s' in
          (closeMeta :: delivered, s'', err)
      end
  end.

(** The cached latest ledger as a LedgerInfo. *)
Definition cached_latest (w : World) : ledgerbucketwindow.LedgerInfo :=
  {| ledgerbucketwindow.Sequence := latestLedgerSeq (cache (database w));
     ledgerbucketwindow.CloseTime := latestLedgerCloseTime (cache (database w)) |}.

(** The world after the sink has been called on the ledgers delivered. *)
Definition delivered_to (w : World) (delivered : list xdr.LedgerCloseMeta) : World :=
  {| database := database w; trace := (trace w ++ map EvSink delivered)%list |}.

(** The statement of StreamLedgerRange. *)
Definition range_query (startLedger endLedger : Z) : SelectBuilder :=
  {| Where := [GtOrEq startLedger; LtOrEq endLedger]; OrderBy := true |}.

(** Ascending order of the column sequence. *)
Definition seq_le (a b : Row) : Prop := sequence a <= sequence b.

(** txHash after a successful hex.Decode of the hash string. *)
Definition decode_hash (h : string) : xdr.Hash :=
  xdr.Hash_of (fst (hex.Decode (list_ascii_of_string h))).


Definition is_hex_digit (c : ascii) : bool :=
  existsb (Ascii.eqb c) (list_ascii_of_string "0123456789abcdefABCDEF").

(** A hash string that decodes to exactly 32 bytes: 64 hex digits. *)
Definition well_formed_hash (h : string) : bool :=
  (String.length h =? 64)%nat && forallb is_hex_digit (list_ascii_of_string h).

(** The world with another cache. *)
Definition with_cache (c : Cache) (w : World) : World :=
  {| database := {| ledger_close_meta := ledger_close_meta (database w);
                    cache := c;
                    health := health (database w) |};
     trace := trace w |}.

(** The world with another trace. *)
Definition with_trace (calls : list Event) (w : World) : World :=
  {| database := database w; trace := calls |}.

(** A hex digit without its letter case: A..F become a..f. *)
Definition fold_case (c : ascii) : ascii :=
  let v := byte_val c in
  if (65 <=? v) && (v <=? 70) then byte_of (v + 32) else c.

(** The statement of StreamAllLedgers. *)
Definition all_query : SelectBuilder := {| Where := []; OrderBy := true |}.

(** The fields of a response that are written only when they are not empty
    are all empty. *)
Definition no_transaction_fields (r : methods.GetTransactionResponse) : Prop :=
  methods.ApplicationOrder r = 0 /\ methods.FeeBump r = false /\
  methods.EnvelopeXDR r = "" /\ methods.EnvelopeJSON r = "" /\
  methods.ResultXDR r = "" /\ methods.ResultJSON r = "" /\
  methods.ResultMetaXDR r = "" /\ methods.ResultMetaJSON r = "" /\
  methods.Ledger r = 0 /\ methods.LedgerCloseTime r = 0 /\
  methods.DiagnosticEventsXDR r = [] /\ methods.DiagnosticEventsJSON r = [].

(** The world whose driver refuses every statement with e. *)
Definition refusing (e : GoError) (w : World) : World :=
  {| database := {| ledger_close_meta := ledger_close_meta (database w);
                    cache := cache (database w);
                    health := Unavailable e |};
     trace := trace w |}.

(** The world whose driver loses every cursor after n rows, with e. *)
Definition breaking (n : nat) (e : GoError) (w : World) : World :=
  {| database := {| ledger_close_meta := ledger_close_meta (database w);
                    cache := cache (database w);
                    health := BreaksAfter n e |};
     trace := trace w |}.

(* ================================================================== *)
(** ** The scenarios of the specification as values *)

Module Scenario.

Import ledgerbucketwindow.

Definition ledger (n : Z) : xdr.LedgerCloseMeta :=
  {| xdr.LedgerSequence := n;
     xdr.LedgerCloseTime := 1700000000 + n;
     xdr.body := [] |}.

(** Sequences 10..20 have been ingested. *)
Definition table_10_20 : list Row :=
  map (fun n => row_of (ledger n)) [10; 11; 12; 13; 14; 15; 16; 17; 18; 19; 20].

Definition store (t : list Row) (c : Cache) : World :=
  {| database := {| ledger_close_meta := t; cache := c; health := Healthy |};
     trace := [] |}.

(** The process after ingesting 20, and the same store just opened. *)
Definition warm : World :=
  store table_10_20
        {| latestLedgerSeq := 20; latestLedgerCloseTime := 1700000020 |}.
Definition cold : World :=
  store table_10_20 {| latestLedgerSeq := 0; latestLedgerCloseTime := 0 |}.

(** Before any ledger is ingested. *)
Definition empty : World :=
  store [] {| latestLedgerSeq := 0; latestLedgerCloseTime := 0 |}.

(** A store in which the primary key has been violated. *)
Definition doubled : World :=
  store (row_of (ledger 12) :: table_10_20)
        {| latestLedgerSeq := 20; latestLedgerCloseTime := 1700000020 |}.

(** The store 10..20 with the bytes of ledger 14 damaged. *)
Definition damaged : World :=
  store (map (fun n => if n =? 14
                       then {| sequence := 14;
                               meta := Malformed (ErrorString "xdr: decoding failed") |}
                       else row_of (ledger n))
             [10; 11; 12; 13; 14; 15; 16; 17; 18; 19; 20])
        {| latestLedgerSeq := 20; latestLedgerCloseTime := 1700000020 |}.

(** A sink that gives up after it has seen ledger 13. *)
Definition done_after_13 : db.StreamLedgerFn (list Z) :=
  fun closeMeta seen =>
    ((seen ++ [xdr.LedgerSequence closeMeta])%list,
     if xdr.LedgerSequence closeMeta =? 13
     then Some (ErrorString "done") else nil).

(** A sink that takes every ledger. *)
Definition collect : db.StreamLedgerFn (list Z) :=
  fun closeMeta seen => ((seen ++ [xdr.LedgerSequence closeMeta])%list, nil).

Definition ErrEmptyDB : GoError := ErrorString "DB is empty".

(** Modelled from the spec: IsValidFormat, FormatJSON, base64EncodeSlice
    and db.ErrNoTransaction are declared in files of the repository other
    than get_transaction.go.  The request field xdrFormat is "base64",
    "json" or absent, any other format is refused; with "json" the blob
    fields carry the decoded form, otherwise each blob is base64-encoded
    (diagnosticEventsXdr: [base64-string]).  The texts of the two errors
    and the JSON renderings are not fixed there and are placeholders. *)
Definition declared : methods.Declared :=
  {| methods.ErrNoTransaction := ErrorString "no transaction with this hash exists";
     methods.FormatJSON := "json";
     methods.IsValidFormat := fun format =>
       if String.eqb format "" || String.eqb format "base64"
          || String.eqb format "json"
       then nil else Some (ErrorString "unknown xdrFormat");
     methods.transactionToJSON := fun tx =>
       (fmt.q (base64.EncodeToString (db.Result tx)),
        fmt.q (base64.EncodeToString (db.Envelope tx)),
        fmt.q (base64.EncodeToString (db.Meta tx)), nil);
     methods.jsonifySlice := fun events =>
       (map (fun e => fmt.q (base64.EncodeToString e)) events, nil);
     methods.base64EncodeSlice := map base64.EncodeToString |}.

Definition hash_AA : string :=
  "AAAAAAAAAAAAAAAAAAAAAAAAAAAAAAAAAAAAAAAAAAAAAAAAAAAAAAAAAAAAAAAA".
Definition hash_BB : string :=
  "BBBBBBBBBBBBBBBBBBBBBBBBBBBBBBBBBBBBBBBBBBBBBBBBBBBBBBBBBBBBBBBB".
Definition hash_CC : string :=
  "CCCCCCCCCCCCCCCCCCCCCCCCCCCCCCCCCCCCCCCCCCCCCCCCCCCCCCCCCCCCCCCC".

(** A successful transaction of ledger 12 whose execution recorded one
    diagnostic event, and a failed one of ledger 13. *)
Definition tx_AA : db.Transaction :=
  {| db.Result := list_ascii_of_string "res";
     db.Meta := list_ascii_of_string "meta";
     db.Envelope := list_ascii_of_string "env";
     db.Events := [list_ascii_of_string "Man"];
     db.FeeBump := false;
     db.ApplicationOrder := 1;
     db.Successful := true;
     db.Ledger := {| Sequence := 12; CloseTime := 1700000012 |} |}.

Definition tx_CC : db.Transaction :=
  {| db.Result := list_ascii_of_string "res";
     db.Meta := list_ascii_of_string "meta";
     db.Envelope := list_ascii_of_string "env";
     db.Events := [list_ascii_of_string "Man"];
     db.FeeBump := false;
     db.ApplicationOrder := 1;
     db.Successful := false;
     db.Ledger := {| Sequence := 13; CloseTime := 1700000013 |} |}.

Definition no_tx : db.Transaction :=
  {| db.Result := []; db.Meta := []; db.Envelope := []; db.Events := [];
     db.FeeBump := false; db.ApplicationOrder := 0; db.Successful := false;
     db.Ledger := {| Sequence := 0; CloseTime := 0 |} |}.

(** A transaction index that holds tx_AA and tx_CC. *)
Definition reader : db.TransactionReader :=
  {| db.TransactionReader_GetTransaction := fun hash =>
       if Ascii.eqb (hd Ascii.zero hash) (byte_of 170) then ret (tx_AA, nil)
       else if Ascii.eqb (hd Ascii.zero hash) (byte_of 204) then ret (tx_CC, nil)
       else ret (no_tx, Some (methods.ErrNoTransaction declared)) |}.

Definition request (hash : string) : methods.GetTransactionRequest :=
  {| methods.Hash := hash; methods.Format := "" |}.


Definition hash_aa : string :=
  "aaaaaaaaaaaaaaaaaaaaaaaaaaaaaaaaaaaaaaaaaaaaaaaaaaaaaaaaaaaaaaaa".

Definition json_request (hash : string) : methods.GetTransactionRequest :=
  {| methods.Hash := hash; methods.Format := "json" |}.

(** A transaction reader whose store cannot be read. *)
Definition failing_reader : db.TransactionReader :=
  {| db.TransactionReader_GetTransaction := fun _ =>
       ret (no_tx, Some (ErrorString "database is locked")) |}.

(** A ledger reader whose GetLedgerRange fails. *)
Definition failing_ledger_reader : db.LedgerReader :=
  {| db.LedgerReader_GetLedger := db.GetLedger;
     db.LedgerReader_StreamAllLedgers := @db.StreamAllLedgers;
     db.LedgerReader_GetLedgerRange :=
       ret (zero, Some (ErrorString "database is locked"));
     db.LedgerReader_StreamLedgerRange := @db.StreamLedgerRange |}.

(** The declarations with a conversion to JSON that fails. *)
Definition declared_without_json : methods.Declared :=
  {| methods.ErrNoTransaction := methods.ErrNoTransaction declared;
     methods.FormatJSON := methods.FormatJSON declared;
     methods.IsValidFormat := methods.IsValidFormat declared;
     methods.transactionToJSON := fun _ =>
       ("", "", "", Some (ErrorString "unsupported type"));
     methods.jsonifySlice := methods.jsonifySlice declared;
     methods.base64EncodeSlice := methods.base64EncodeSlice declared |}.

End Scenario.

Import ledgerbucketwindow.


(* ================================================================== *)
(** ** Running the monad *)

Lemma run_emit (e : Event) (w : World) : runState (emit e) w = (tt, log e w).
Proof. reflexivity. Qed.

Lemma run_Query (sql : SelectBuilder) (w : World) :
  runState (Query sql) w = (open_cursor (database w) sql, log (EvQuery sql) w).
Proof. reflexivity. Qed.

Lemma run_Select (sql : SelectBuilder) (w : World) :
  runState (Select sql) w =
  (scan_cursor (open_cursor (database w) sql), log (EvQuery sql) w).
Proof. reflexivity. Qed.

Lemma run_Exec (stmt : DeleteBuilder) (w : World) :
  runState (Exec stmt) w =
  (snd (run_delete (database w) stmt),
   {| database := fst (run_delete (database w) stmt);
      trace := trace w ++ [EvExec stmt] |}).
Proof.
  unfold Exec. cbn. destruct (run_delete (database w) stmt). reflexivity.
Qed.

Lemma select_rows_nil (sql : SelectBuilder) : select_rows [] sql = [].
Proof. unfold select_rows. cbn. destruct (OrderBy sql); reflexivity. Qed.

Lemma open_cursor_healthy (d : DB) (sql : SelectBuilder) :
  health d = Healthy ->
  open_cursor d sql =
  ({| pending := map meta (select_rows (ledger_close_meta d) sql); Err := nil |}, nil).
Proof. intros H. unfold open_cursor. now rewrite H. Qed.

(** On an empty table a SELECT gives no row, or the driver refuses it. *)
Lemma scan_cursor_empty (d : DB) (sql : SelectBuilder) :
  ledger_close_meta d = [] ->
  scan_cursor (open_cursor d sql) =
  match health d with
  | Unavailable e => ([], Some e)
  | _ => ([], nil)
  end.
Proof.
  intros Ht. unfold open_cursor. rewrite Ht, select_rows_nil. cbn.
  destruct (health d) as [|e|n e]; reflexivity.
Qed.

(* ================================================================== *)
(** ** Scanning rows *)

Lemma scan_all_ok (rows : list Row) :
  forallb row_ok rows = true ->
  scan_all (map meta rows) nil = (map ledger_of rows, nil).
Proof.
  induction rows as [|r rows IH]; cbn; intros H.
  - reflexivity.
  - apply andb_true_iff in H as [Hr Hrows].
    unfold row_ok in Hr. unfold ledger_of at 1.
    destruct (meta r) as [lcm|why]; [|discriminate].
    cbn. rewrite (IH Hrows). reflexivity.
Qed.

Lemma scan_all_length (blobs : list Blob) (dest : list xdr.LedgerCloseMeta) :
  scan_all blobs nil = (dest, nil) ->
  Forall2 (fun b lcm => b = Marshaled lcm) blobs dest.
Proof.
  revert dest. induction blobs as [|b blobs IH]; cbn; intros dest H.
  - inversion H. constructor.
  - destruct b as [lcm|why]; cbn in H; [|discriminate].
    destruct (scan_all blobs nil) as [d e] eqn:E.
    inversion H; subst. constructor; [reflexivity | apply IH; reflexivity].
Qed.

(* ================================================================== *)
(** ** The conditions of the statements *)

Lemma fold_min_le (l : list Row) (a : Z) :
  fold_left (fun m x => Z.min m (sequence x)) l a <= a /\
  (forall r, In r l -> fold_left (fun m x => Z.min m (sequence x)) l a <= sequence r) /\
  (fold_left (fun m x => Z.min m (sequence x)) l a = a \/
   exists r, In r l /\ fold_left (fun m x => Z.min m (sequence x)) l a = sequence r).
Proof.
  revert a. induction l as [|x l IH]; cbn; intros a.
  - repeat split; [lia | tauto | now left].
  - destruct (IH (Z.min a (sequence x))) as (H1 & H2 & H3).
    repeat split.
    + lia.
    + intros r [<-|Hr]; [lia | auto].
    + destruct H3 as [H3|(r & Hr & H3)].
      * destruct (Z.min_spec a (sequence x)) as [[_ E]|[_ E]].
        -- left. now rewrite H3.
        -- right. exists x. split; [now left | now rewrite H3].
      * right. exists r. split; [now right | exact H3].
Qed.

Lemma min_sequence_spec (t : list Row) (m : Z) :
  min_sequence t = Some m ->
  (exists r, In r t /\ sequence r = m) /\
  (forall r, In r t -> m <= sequence r).
Proof.
  destruct t as [|r0 t]; cbn; intros H; [discriminate|].
  inversion H as [Hm]; clear H.
  destruct (fold_min_le t (sequence r0)) as (H1 & H2 & H3).
  split.
  - destruct H3 as [H3|(r & Hr & H3)].
    + exists r0. split; [now left | now rewrite H3].
    + exists r. split; [now right | now rewrite H3].
  - intros r [<-|Hr]; [exact H1 | now apply H2].
Qed.

(** The rows of the statement of the warm path are the rows of the table
    with the least sequence. *)
Lemma oldest_query_rows (t : list Row) (r : Row) :
  In r (select_rows t db.oldest_query) <->
  In r t /\ forall r', In r' t -> sequence r <= sequence r'.
Proof.
  unfold select_rows, db.oldest_query; cbn.
  rewrite filter_In. unfold matches; cbn. rewrite andb_true_r.
  destruct (min_sequence t) as [m|] eqn:Hm.
  - destruct (min_sequence_spec t m Hm) as ((r0 & Hr0 & E0) & Hle).
    split.
    + intros [Hin Heq]. apply Z.eqb_eq in Heq. split; [exact Hin|].
      intros r' Hr'. rewrite Heq. now apply Hle.
    + intros [Hin Hmin]. split; [exact Hin|]. apply Z.eqb_eq.
      specialize (Hmin r0 Hr0). specialize (Hle r Hin). lia.
  - destruct t; [|discriminate]. cbn. split; [intros [[] _] | intros [[] _]].
Qed.

Lemma matches_range (t : list Row) (startLedger endLedger : Z) (r : Row) :
  matches t [GtOrEq startLedger; LtOrEq endLedger] r = in_range startLedger endLedger r.
Proof. unfold matches, in_range. cbn. now rewrite andb_true_r. Qed.

Lemma matches_eq (t : list Row) (v : Z) (r : Row) :
  matches t [Eq v] r = (sequence r =? v).
Proof. unfold matches. cbn. now rewrite andb_true_r. Qed.

Lemma matches_lt (t : list Row) (v : Z) (r : Row) :
  matches t [Lt v] r = (sequence r <? v).
Proof. unfold matches. cbn. now rewrite andb_true_r. Qed.

(* ================================================================== *)
(** ** ORDER BY sequence ASC *)

Lemma insert_row_perm (r : Row) (l : list Row) :
  Permutation (insert_row r l) (r :: l).
Proof.
  induction l as [|x l IH]; cbn.
  - apply Permutation_refl.
  - destruct (sequence r <=? sequence x).
    + apply Permutation_refl.
    + eapply perm_trans; [apply perm_skip, IH | apply perm_swap].
Qed.

Lemma order_by_sequence_perm (l : list Row) :
  Permutation (order_by_sequence l) l.
Proof.
  induction l as [|x l IH]; cbn.
  - constructor.
  - eapply perm_trans; [apply insert_row_perm | now apply perm_skip].
Qed.

Lemma insert_row_sorted (r : Row) (l : list Row) :
  Sorted seq_le l -> Sorted seq_le (insert_row r l).
Proof.
  induction l as [|x l IH]; cbn; intros Hs.
  - repeat constructor.
  - destruct (Z.leb_spec (sequence r) (sequence x)) as [Hle|Hgt].
    + constructor; [exact Hs | constructor; exact Hle].
    + inversion Hs as [|? ? Hl Hhd]; subst.
      constructor; [now apply IH|].
      destruct l as [|y l]; cbn.
      * constructor. unfold seq_le. lia.
      * destruct (sequence r <=? sequence y).
        -- constructor. unfold seq_le. lia.
        -- constructor. now inversion Hhd.
Qed.

Lemma order_by_sequence_sorted (l : list Row) :
  Sorted seq_le (order_by_sequence l).
Proof.
  induction l as [|x l IH]; cbn.
  - constructor.
  - now apply insert_row_sorted.
Qed.

Lemma forallb_perm {A : Type} (p : A -> bool) (l l' : list A) :
  Permutation l l' -> forallb p l = true -> forallb p l' = true.
Proof.
  intros HP H. apply forallb_forall. intros x Hx.
  rewrite forallb_forall in H. apply H.
  eapply Permutation_in; [apply Permutation_sym; exact HP | exact Hx].
Qed.

Lemma forallb_filter {A : Type} (p q : A -> bool) (l : list A) :
  forallb p l = true -> forallb p (filter q l) = true.
Proof.
  rewrite !forallb_forall. intros H x Hx. apply filter_In in Hx as [Hx _]. auto.
Qed.

Lemma select_rows_ok (t : list Row) (q : SelectBuilder) :
  forallb row_ok t = true -> forallb row_ok (select_rows t q) = true.
Proof.
  intros H. unfold select_rows.
  destruct (OrderBy q).
  - eapply forallb_perm; [apply Permutation_sym, order_by_sequence_perm|].
    now apply forallb_filter.
  - now apply forallb_filter.
Qed.


Lemma run_bind {A B : Type} (c : M A) (k : A -> M B) (w : World) :
  runState (bind c k) w = let (a, w') := runState c w in runState (k a) w'.
Proof. reflexivity. Qed.

Lemma run_ret {A : Type} (a : A) (w : World) : runState (ret a : M A) w = (a, w).
Proof. reflexivity. Qed.

(* ================================================================== *)
(** ** GetLedger *)

Lemma select_eq_rows (t : list Row) (seq : Z) :
  select_rows t {| Where := [Eq seq]; OrderBy := false |} =
  filter (fun r => sequence r =? seq) t.
Proof.
  unfold select_rows; cbn. apply filter_ext. intros r. apply matches_eq.
Qed.

(** What GetLedger makes of the result of its SELECT. *)
Lemma run_GetLedger (w : World) (seq : Z) :
  health (database w) = Healthy ->
  fst (runState (db.GetLedger seq) w) =
  let '(results, err) :=
    scan_all (map meta (filter (fun r => sequence r =? seq)
                               (ledger_close_meta (database w)))) nil in
  match err with
  | Some e => (xdr.zero, false, Some e)
  | None =>
      match results with
      | [] => (xdr.zero, false, nil)
      | [r] => (r, true, nil)
      | _ =>
          (xdr.zero, false,
           Some (ErrorString
                   ("multiple lcm entries (" ++ fmt.d (Z.of_nat (List.length results))
                    ++ ") for sequence " ++ fmt.d seq
                    ++ " in table " ++ fmt.q db.ledgerCloseMetaTableName)))
      end
  end.
Proof.
  intros H. unfold db.GetLedger. rewrite run_bind, run_Select.
  rewrite (open_cursor_healthy _ _ H), select_eq_rows. cbn [scan_cursor pending Err].
  destruct (scan_all _ _) as [results [e|]];
    destruct results as [|r [|r' rest]]; reflexivity.
Qed.

(** C7. For every sequence, GetLedger returns the ledger and found = true
    when exactly one row of the table has that sequence, the zero value and
    found = false without an error when none has, and an error when more
    than one has; when those rows all unmarshal the error is the one that
    counts them. *)
Theorem GetLedger_by_number_of_rows (w : World) (seq : Z) :
  health (database w) = Healthy ->
  let hit := filter (fun r => sequence r =? seq) (ledger_close_meta (database w)) in
  let out := fst (runState (db.GetLedger seq) w) in
  (forall r lcm, hit = [r] -> meta r = Marshaled lcm -> out = (lcm, true, nil)) /\
  (hit = [] -> out = (xdr.zero, false, nil)) /\
  ((1 < List.length hit)%nat ->
   exists e, out = (xdr.zero, false, Some e) /\
     (forallb row_ok hit = true ->
      e = ErrorString
            ("multiple lcm entries (" ++ fmt.d (Z.of_nat (List.length hit))
             ++ ") for sequence " ++ fmt.d seq
             ++ " in table " ++ dquote ++ "ledger_close_meta" ++ dquote))).
Proof.
  intros H hit out. subst out. rewrite (run_GetLedger w seq H). fold hit.
  repeat split.
  - intros r lcm Hhit Hmeta. rewrite Hhit. cbn. rewrite Hmeta. reflexivity.
  - intros Hhit. rewrite Hhit. reflexivity.
  - intros Hlen.
    destruct (scan_all (map meta hit) nil) as [results [e|]] eqn:Hscan.
    + exists e. split; [reflexivity|].
      intros Hok. rewrite (scan_all_ok hit Hok) in Hscan. discriminate.
    + pose proof (scan_all_length _ _ Hscan) as HF.
      apply Forall2_length in HF. rewrite length_map in HF.
      destruct results as [|r [|r' rest]]; cbn in HF; try lia.
      eexists. split; [reflexivity|].
      intros Hok. rewrite (scan_all_ok hit Hok) in Hscan.
      cbn [List.length]. rewrite <- HF. reflexivity.
Qed.

Lemma GetLedger_by_number_of_rows_witness :
  fst (runState (db.GetLedger 12) Scenario.warm) = (Scenario.ledger 12, true, nil) /\
  fst (runState (db.GetLedger 2) Scenario.warm) = (xdr.zero, false, nil) /\
  exists e, fst (runState (db.GetLedger 12) Scenario.doubled)
            = (xdr.zero, false, Some e).
Proof.
  split; [|split].
  - apply (proj1 (GetLedger_by_number_of_rows Scenario.warm 12 eq_refl)
             (row_of (Scenario.ledger 12)) (Scenario.ledger 12));
      reflexivity.
  - apply (proj1 (proj2 (GetLedger_by_number_of_rows Scenario.warm 2 eq_refl)));
      reflexivity.
  - destruct (proj2 (proj2 (GetLedger_by_number_of_rows Scenario.doubled 12 eq_refl)))
      as (e & He & _); [cbn; lia|].
    exists e. exact He.
Defined.


(* ================================================================== *)
(** ** GetLedgerRange *)


(** The warm path, for any answer of the driver. *)
Lemma run_GetLedgerRange_warm (ErrEmptyDB : GoError) (w : World) :
  latestLedgerSeq (cache (database w)) <> 0 ->
  runState (db.GetLedgerRange ErrEmptyDB) w =
  (match scan_cursor (open_cursor (database w) db.oldest_query) with
   | (_, Some e) => (zero, Some (Wrapf "couldn't query ledger range: " e))
   | ([], None) => (zero, Some ErrEmptyDB)
   | (lcm0 :: _, None) =>
       ({| FirstLedger := db.info_of lcm0; LastLedger := cached_latest w |}, nil)
   end,
   log (EvQuery db.oldest_query) w).
Proof.
  intros Hc. unfold db.GetLedgerRange.
  rewrite run_bind. cbn [runState get MonadState_state].
  apply Z.eqb_neq in Hc. rewrite Hc. cbn [negb].
  rewrite run_bind, run_Select.
  destruct (scan_cursor _) as [[|lcm0 rest] [e|]]; reflexivity.
Qed.

(** The cold path, for any answer of the driver. *)
Lemma run_GetLedgerRange_cold (ErrEmptyDB : GoError) (w : World) :
  latestLedgerSeq (cache (database w)) = 0 ->
  runState (db.GetLedgerRange ErrEmptyDB) w =
  (match scan_cursor (open_cursor (database w) db.oldest_latest_query) with
   | (_, Some e) => (zero, Some (Wrapf "couldn't query ledger range: " e))
   | ([], None) => (zero, Some ErrEmptyDB)
   | (lcm0 :: rest, None) =>
       ({| FirstLedger := db.info_of lcm0;
           LastLedger := db.info_of (last (lcm0 :: rest) lcm0) |}, nil)
   end,
   log (EvQuery db.oldest_latest_query) w).
Proof.
  intros Hc. unfold db.GetLedgerRange.
  rewrite run_bind. cbn [runState get MonadState_state].
  rewrite Hc. cbn [negb Z.eqb].
  rewrite run_bind, run_Select.
  destruct (scan_cursor _) as [[|lcm0 rest] [e|]]; reflexivity.
Qed.

Lemma scan_all_head (blobs : list Blob) (final err : error)
    (lcm0 : xdr.LedgerCloseMeta) (rest : list xdr.LedgerCloseMeta) :
  scan_all blobs final = (lcm0 :: rest, err) ->
  exists blobs', blobs = Marshaled lcm0 :: blobs'.
Proof.
  destruct blobs as [|[lcm|why] blobs']; cbn; intros H.
  - discriminate.
  - destruct (scan_all blobs' final). inversion H; subst. now exists blobs'.
  - discriminate.
Qed.

(** The first ledger a SELECT gives is the one of the first of its rows. *)
Lemma scan_cursor_head (d : DB) (sql : SelectBuilder) (err : error)
    (lcm0 : xdr.LedgerCloseMeta) (rest : list xdr.LedgerCloseMeta) :
  scan_cursor (open_cursor d sql) = (lcm0 :: rest, err) ->
  exists r rows, select_rows (ledger_close_meta d) sql = r :: rows /\
                 meta r = Marshaled lcm0.
Proof.
  unfold open_cursor.
  destruct (select_rows (ledger_close_meta d) sql) as [|r rows].
  - destruct (health d) as [|e|n e]; cbn; try discriminate.
  - destruct (health d) as [|e|n e]; cbn [scan_cursor pending Err].
    + intros H. apply scan_all_head in H as [blobs' H].
      inversion H. now exists r, rows.
    + discriminate.
    + destruct (Nat.ltb _ _); cbn [scan_cursor pending Err]; intros H;
        apply scan_all_head in H as [blobs' H].
      * destruct n; cbn in H; [discriminate|].
        inversion H. now exists r, rows.
      * inversion H. now exists r, rows.
Qed.

(** C6. When the cached latest sequence is not zero, GetLedgerRange sends
    one statement and does nothing else to the world; the rows of that
    statement are the rows of the table with the least sequence; a range it
    returns has the cached sequence and close time as LastLedger and the
    ledger of such a row as FirstLedger; and on a healthy, non-empty store
    of rows as InsertLedger writes them it returns a range. *)
Theorem GetLedgerRange_warm_path (ErrEmptyDB : GoError) (w : World) :
  latestLedgerSeq (cache (database w)) <> 0 ->
  let t := ledger_close_meta (database w) in
  let '((storeRange, err), w') := runState (db.GetLedgerRange ErrEmptyDB) w in
  w' = log (EvQuery db.oldest_query) w /\
  (forall r, In r (select_rows t db.oldest_query) <->
             In r t /\ forall r', In r' t -> sequence r <= sequence r') /\
  (err = nil ->
   LastLedger storeRange = cached_latest w /\
   exists r lcm, In r (select_rows t db.oldest_query) /\
                 meta r = Marshaled lcm /\
                 FirstLedger storeRange = db.info_of lcm) /\
  (health (database w) = Healthy -> t <> [] -> forallb row_ok t = true ->
   err = nil).
Proof.
  intros Hc t. rewrite (run_GetLedgerRange_warm ErrEmptyDB w Hc).
  destruct (scan_cursor _) as [results err0] eqn:Hscan.
  assert (Hrows : forall r, In r (select_rows t db.oldest_query) <->
             In r t /\ forall r', In r' t -> sequence r <= sequence r')
    by (intros r; apply oldest_query_rows).
  assert (Hgood : health (database w) = Healthy -> t <> [] ->
            forallb row_ok t = true ->
            exists lcm0 rest, results = lcm0 :: rest /\ err0 = nil).
  { intros Hh Hne Hok. rewrite (open_cursor_healthy _ _ Hh) in Hscan.
    cbn [scan_cursor pending Err] in Hscan. fold t in Hscan.
    rewrite (scan_all_ok _ (select_rows_ok t db.oldest_query Hok)) in Hscan.
    inversion Hscan; subst results err0.
    destruct t as [|r0 t0] eqn:Et; [congruence|].
    destruct (min_sequence_spec (r0 :: t0) _ eq_refl) as ((rm & Hin & Hm) & Hle).
    assert (Hsel : In rm (select_rows (r0 :: t0) db.oldest_query)).
    { apply oldest_query_rows. split; [exact Hin|].
      intros r' Hr'. rewrite Hm. now apply Hle. }
    destruct (select_rows (r0 :: t0) db.oldest_query) as [|r rows]; [destruct Hsel|].
    now exists (ledger_of r), (map ledger_of rows). }
  destruct err0 as [e|]; destruct results as [|lcm0 rest];
    (split; [reflexivity|]); (split; [exact Hrows|]); split;
    try discriminate;
    try (intros Hh Hne Hok; destruct (Hgood Hh Hne Hok) as (? & ? & ? & ?);
         congruence).
  intros _. split; [reflexivity|].
  destruct (scan_cursor_head _ _ _ _ _ Hscan) as (r & rows & Hsel & Hmeta).
  exists r, lcm0. fold t in Hsel. rewrite Hsel.
  repeat split; [now left | exact Hmeta].
Qed.

Lemma GetLedgerRange_warm_path_witness :
  latestLedgerSeq (cache (database Scenario.warm)) <> 0 /\
  runState (db.GetLedgerRange Scenario.ErrEmptyDB) Scenario.warm =
  (({| FirstLedger := {| Sequence := 10; CloseTime := 1700000010 |};
       LastLedger := {| Sequence := 20; CloseTime := 1700000020 |} |}, nil),
   log (EvQuery db.oldest_query) Scenario.warm) /\
  (let t := ledger_close_meta (database Scenario.warm) in
   let '((storeRange, err), w') :=
     runState (db.GetLedgerRange Scenario.ErrEmptyDB) Scenario.warm in
   w' = log (EvQuery db.oldest_query) Scenario.warm /\
   (forall r, In r (select_rows t db.oldest_query) <->
              In r t /\ forall r', In r' t -> sequence r <= sequence r') /\
   (err = nil ->
    LastLedger storeRange = cached_latest Scenario.warm /\
    exists r lcm, In r (select_rows t db.oldest_query) /\
                  meta r = Marshaled lcm /\
                  FirstLedger storeRange = db.info_of lcm) /\
   (health (database Scenario.warm) = Healthy -> t <> [] ->
    forallb row_ok t = true -> err = nil)).
Proof.
  split; [cbn; lia|]. split; [reflexivity|].
  apply (GetLedgerRange_warm_path Scenario.ErrEmptyDB Scenario.warm).
  cbn; lia.
Defined.

(** On an empty table GetLedgerRange fails on either path: with ErrEmptyDB
    unless the driver refuses the statement. *)
Lemma GetLedgerRange_empty (ErrEmptyDB : GoError) (w : World) :
  ledger_close_meta (database w) = [] ->
  exists e, fst (runState (db.GetLedgerRange ErrEmptyDB) w) = (zero, Some e) /\
            ((forall e', health (database w) <> Unavailable e') -> e = ErrEmptyDB).
Proof.
  intros Ht.
  destruct (Z.eq_dec (latestLedgerSeq (cache (database w))) 0) as [Hc|Hc].
  - rewrite (run_GetLedgerRange_cold _ _ Hc), (scan_cursor_empty _ _ Ht).
    destruct (health (database w)) as [|e|n e]; cbn [fst];
      eexists; (split; [reflexivity|]); intros Hh; try reflexivity.
    now destruct (Hh e).
  - rewrite (run_GetLedgerRange_warm _ _ Hc), (scan_cursor_empty _ _ Ht).
    destruct (health (database w)) as [|e|n e]; cbn [fst];
      eexists; (split; [reflexivity|]); intros Hh; try reflexivity.
    now destruct (Hh e).
Qed.

(* ================================================================== *)
(** ** trimLedgers *)

Lemma u32_range (z : Z) : 0 <= u32 z < 2 ^ 32.
Proof. unfold u32. apply Z.mod_pos_bound. lia. Qed.

Lemma u32_small (z : Z) : 0 <= z < 2 ^ 32 -> u32 z = z.
Proof. unfold u32. apply Z.mod_small. Qed.

(** C5. trimLedgers with latest sequence L and retention window W, both
    uint32: when L + 1 <= W in uint32 arithmetic nothing is sent and nothing
    changes; otherwise one DELETE is sent and the rows that remain are
    exactly the rows whose sequence is not below L + 1 - W, a difference
    that does not wrap.  L + 1 is L + 1 unless L is the largest uint32. *)
Theorem trimLedgers_cutoff (w : World) (L W : Z) :
  0 <= W ->
  (forall e, health (database w) <> Unavailable e) ->
  let t := ledger_close_meta (database w) in
  let cutoff := u32 (L + 1) - W in
  let '(err, w') := runState (db.trimLedgers L W) w in
  err = nil /\
  (u32 (L + 1) <= W -> w' = w) /\
  (W < u32 (L + 1) ->
   0 < cutoff < 2 ^ 32 /\
   ledger_close_meta (database w') = filter (fun r => cutoff <=? sequence r) t /\
   (forall r, In r (ledger_close_meta (database w')) <->
              In r t /\ ~ sequence r < cutoff) /\
   cache (database w') = cache (database w) /\
   health (database w') = health (database w) /\
   trace w' = (trace w ++ [EvExec {| DeleteWhere := [Lt cutoff] |}])%list) /\
  (0 <= L < 2 ^ 32 - 1 -> u32 (L + 1) = L + 1).
Proof.
  intros HW Hh t cutoff. unfold db.trimLedgers.
  pose proof (u32_range (L + 1)) as HL.
  destruct (Z.leb_spec (u32 (L + 1)) W) as [Hle|Hgt].
  - cbn. repeat split; try reflexivity; try lia.
    intros HLr. apply u32_small. lia.
  - rewrite run_Exec.
    assert (Hcut : u32 (u32 (L + 1) - W) = cutoff) by (apply u32_small; lia).
    rewrite Hcut.
    assert (Hdel : run_delete (database w) {| DeleteWhere := [Lt cutoff] |} =
                   ({| ledger_close_meta := filter (fun r => cutoff <=? sequence r) t;
                       cache := cache (database w);
                       health := health (database w) |}, nil)).
    { unfold run_delete, delete_rows. cbn [DeleteWhere].
      assert (Hf : filter (fun r => negb (matches (ledger_close_meta (database w))
                                            [Lt cutoff] r)) (ledger_close_meta (database w))
                   = filter (fun r => cutoff <=? sequence r) t).
      { apply filter_ext. intros r. rewrite matches_lt.
        destruct (Z.ltb_spec (sequence r) cutoff), (Z.leb_spec cutoff (sequence r));
          try reflexivity; lia. }
      rewrite Hf.
      destruct (health (database w)) as [|e|n e]; try reflexivity.
      now destruct (Hh e). }
    rewrite Hdel. cbn [fst snd database trace ledger_close_meta cache health].
    split; [reflexivity|]. split; [lia|]. split.
    + intros _. split; [unfold cutoff; lia|]. split; [reflexivity|].
      split; [|repeat split; reflexivity].
      intros r. rewrite filter_In. 
      destruct (Z.leb_spec cutoff (sequence r)); split; intros [? ?];
        split; try assumption; try reflexivity; try lia; try discriminate.
    + intros HLr. apply u32_small. lia.
Qed.

Lemma trimLedgers_cutoff_witness :
  0 <= 3 /\
  (forall e, health (database Scenario.warm) <> Unavailable e) /\
  map sequence (ledger_close_meta
                  (database (snd (runState (db.trimLedgers 20 3) Scenario.warm))))
  = [18; 19; 20].
Proof.
  assert (HW : 0 <= 3) by lia.
  assert (Hh : forall e, health (database Scenario.warm) <> Unavailable e)
    by (intros e; discriminate).
  split; [exact HW|]. split; [exact Hh|].
  pose proof (trimLedgers_cutoff Scenario.warm 20 3 HW Hh) as H.
  cbv zeta in H.
  destruct (runState (db.trimLedgers 20 3) Scenario.warm) as [err w'].
  destruct H as (_ & _ & H & _).
  destruct H as (_ & Ht & _); [reflexivity|].
  cbn [snd]. rewrite Ht. reflexivity.
Defined.


(* ================================================================== *)
(** ** StreamLedgerRange *)

(** On rows as InsertLedger writes them and a cursor that does not break,
    the loop of the stream is [feed]. *)
Lemma stream_rows_feed {S : Type} (f : db.StreamLedgerFn S) (rows : list Row) :
  forallb row_ok rows = true ->
  forall (s : S) (w : World),
  runState (db.stream_rows f (map meta rows) nil s) w =
  let '(delivered, s', err) := feed f (map ledger_of rows) s in
  ((s', err), delivered_to w delivered).
Proof.
  induction rows as [|r rows IH]; intros Hok s w.
  - cbn. unfold delivered_to. cbn. rewrite app_nil_r. now destruct w.
  - cbn in Hok. apply andb_true_iff in Hok as [Hr Hrows].
    unfold row_ok in Hr.
    destruct (meta r) as [lcm|why] eqn:Em; [|discriminate].
    assert (El : ledger_of r = lcm) by (unfold ledger_of; now rewrite Em).
    cbn [map db.stream_rows feed]. rewrite Em, El.
    cbn [Scan]. rewrite run_bind. unfold db.call_sink.
    rewrite run_bind, run_emit, run_ret.
    destruct (f lcm s) as [s' [e|]].
    + rewrite run_ret. unfold delivered_to, log. reflexivity.
    + rewrite (IH Hrows s' (log (EvSink lcm) w)).
      destruct (feed f (map ledger_of rows) s') as [[delivered s''] err].
      unfold delivered_to, log. cbn. now rewrite <- app_assoc.
Qed.

(** What [feed] delivers is a prefix of the ledgers: all of them when it
    returns no error, and up to the ledger on which f returned the error
    otherwise; before that ledger f returned no error. *)
Lemma feed_prefix {S : Type} (f : db.StreamLedgerFn S)
    (ledgers : list xdr.LedgerCloseMeta) :
  forall (s : S) delivered s' err,
  feed f ledgers s = (delivered, s', err) ->
  exists rest, ledgers = (delivered ++ rest)%list /\
    (err = nil -> rest = [] /\ fst (fst (feed f delivered s)) = delivered) /\
    (forall e, err = Some e ->
       exists before closeMeta s0,
         delivered = (before ++ [closeMeta])%list /\
         feed f before s = (before, s0, nil) /\
         f closeMeta s0 = (s', Some e)).
Proof.
  induction ledgers as [|l ledgers IH]; intros s delivered s' err H; cbn in H.
  - inversion H; subst. exists []. split; [reflexivity|].
    split; [now split | discriminate].
  - destruct (f l s) as [s1 [e1|]] eqn:Ef.
    + inversion H; subst. exists ledgers. split; [reflexivity|].
      split; [discriminate|].
      intros e He. inversion He; subst.
      exists [], l, s. repeat split. exact Ef.
    + destruct (feed f ledgers s1) as [[d1 s2] err1] eqn:E1.
      inversion H; subst.
      destruct (IH s1 d1 s' err E1) as (rest & Hl & Hnil & Herr).
      exists rest. split; [cbn; now rewrite <- Hl|]. split.
      * intros He. destruct (Hnil He) as [Hr Hd]. split; [exact Hr|].
        cbn. rewrite Ef. 
        destruct (feed f d1 s1) as [[d' s3] err3]. cbn in Hd. now subst.
      * intros e He. destruct (Herr e He) as (before & x & s0 & Hd & Hb & Hx).
        exists (l :: before), x, s0. split; [cbn; now rewrite Hd|].
        split; [|exact Hx]. cbn. rewrite Ef, Hb. reflexivity.
Qed.

(** A sink that never returns an error is fed every ledger. *)
Lemma feed_all {S : Type} (f : db.StreamLedgerFn S)
    (ledgers : list xdr.LedgerCloseMeta) :
  (forall closeMeta s, snd (f closeMeta s) = nil) ->
  forall s, exists s', feed f ledgers s = (ledgers, s', nil).
Proof.
  intros Hf. induction ledgers as [|l ledgers IH]; intros s; cbn.
  - now exists s.
  - specialize (Hf l s). destruct (f l s) as [s1 err]. cbn in Hf. subst err.
    destruct (IH s1) as [s' ->]. now exists s'.
Qed.

Lemma select_range_rows (t : list Row) (startLedger endLedger : Z) :
  select_rows t (range_query startLedger endLedger) =
  order_by_sequence (filter (in_range startLedger endLedger) t).
Proof.
  unfold select_rows, range_query; cbn. f_equal.
  apply filter_ext. intros r. apply matches_range.
Qed.

(** The stream over a healthy store of rows as InsertLedger writes them. *)
Lemma run_StreamLedgerRange {S : Type} (f : db.StreamLedgerFn S) (s : S)
    (w : World) (startLedger endLedger : Z) :
  health (database w) = Healthy ->
  forallb row_ok (ledger_close_meta (database w)) = true ->
  runState (db.StreamLedgerRange startLedger endLedger f s) w =
  let '(delivered, s', err) :=
    feed f (map ledger_of
              (order_by_sequence
                 (filter (in_range startLedger endLedger)
                         (ledger_close_meta (database w))))) s in
  ((s', err),
   delivered_to (log (EvQuery (range_query startLedger endLedger)) w) delivered).
Proof.
  intros Hh Hok. unfold db.StreamLedgerRange.
  rewrite run_bind, run_Query.
  fold (range_query startLedger endLedger).
  rewrite (open_cursor_healthy _ _ Hh). cbn [pending Err].
  change (database (log (EvQuery (range_query startLedger endLedger)) w))
    with (database w).
  rewrite <- select_range_rows.
  apply stream_rows_feed. now apply select_rows_ok.
Qed.

Lemma Sorted_map_sequence (rows : list Row) :
  Sorted seq_le rows -> Sorted Z.le (map sequence rows).
Proof.
  induction 1 as [|r rows Hs IH Hhd]; cbn; constructor; [exact IH|].
  destruct Hhd; cbn; constructor. assumption.
Qed.

Lemma ledger_of_sequence (rows : list Row) :
  forallb row_ok rows = true ->
  map xdr.LedgerSequence (map ledger_of rows) = map sequence rows.
Proof.
  induction rows as [|r rows IH]; cbn; intros H; [reflexivity|].
  apply andb_true_iff in H as [Hr Hrows]. rewrite (IH Hrows). f_equal.
  unfold row_ok in Hr. unfold ledger_of.
  destruct (meta r); [cbn; now apply Z.eqb_eq | discriminate].
Qed.

(** Once the sink has taken the ledgers of [before] without an error, the
    loop goes on with the rest from the state the sink is in. *)
Lemma feed_app {S : Type} (f : db.StreamLedgerFn S)
    (before rest : list xdr.LedgerCloseMeta) :
  forall (s s0 : S),
  feed f before s = (before, s0, nil) ->
  feed f (before ++ rest) s
  = let '(delivered, s', err) := feed f rest s0 in
    ((before ++ delivered)%list, s', err).
Proof.
  induction before as [|x before IH]; intros s s0 H.
  - cbn in H. injection H as <-. cbn [app].
    now destruct (feed f rest s) as [[delivered s'] err].
  - cbn [feed] in H. cbn [app feed].
    destruct (f x s) as [sx [e|]]; [discriminate|].
    destruct (feed f before sx) as [[d s1] err1] eqn:Hb.
    injection H as Hd Hs Herr. subst d s1 err1.
    rewrite (IH sx s0 Hb).
    now destruct (feed f rest s0) as [[delivered s'] err].
Qed.

(** An error of the sink ends the loop: the ledger it was returned on is
    the last one delivered, and the error is the result. *)
Lemma feed_stops {S : Type} (f : db.StreamLedgerFn S)
    (before after : list xdr.LedgerCloseMeta) (closeMeta : xdr.LedgerCloseMeta)
    (s s0 s1 : S) (e : GoError) :
  feed f before s = (before, s0, nil) ->
  f closeMeta s0 = (s1, Some e) ->
  feed f (before ++ closeMeta :: after) s
  = ((before ++ [closeMeta])%list, s1, Some e).
Proof.
  intros Hb Hf. rewrite (feed_app f before (closeMeta :: after) s s0 Hb).
  cbn [feed]. now rewrite Hf.
Qed.

(** C8, as the code has it. On a healthy store of rows as InsertLedger
    writes them, StreamLedgerRange sends one ordered SELECT and then calls f
    on the stored ledgers with a sequence in [startLedger, endLedger], each
    once, in ascending order of sequence, as long as f returns no error:
    the ledgers f has been called on are a prefix of that list; when the
    stream returns no error it is the whole list; an error the stream
    returns is the one f returned on the last ledger delivered; when f
    returns an error on a ledger, after taking the ledgers before it, the
    stream stops there, delivers no later ledger and returns that error;
    and an f that never returns an error is called on the whole list. *)
Theorem StreamLedgerRange_delivery {S : Type} (f : db.StreamLedgerFn S) (s : S)
    (w : World) (startLedger endLedger : Z) :
  health (database w) = Healthy ->
  forallb row_ok (ledger_close_meta (database w)) = true ->
  let stored := filter (in_range startLedger endLedger)
                       (ledger_close_meta (database w)) in
  let ledgers := map ledger_of (order_by_sequence stored) in
  let '((s', err), w') :=
    runState (db.StreamLedgerRange startLedger endLedger f s) w in
  Permutation ledgers (map ledger_of stored) /\
  Sorted Z.le (map xdr.LedgerSequence ledgers) /\
  exists delivered rest,
    ledgers = (delivered ++ rest)%list /\
    database w' = database w /\
    trace w' = (trace w ++ EvQuery (range_query startLedger endLedger)
                        :: map EvSink delivered)%list /\
    (err = nil -> rest = []) /\
    (forall e, err = Some e ->
       exists before closeMeta s0,
         delivered = (before ++ [closeMeta])%list /\
         feed f before s = (before, s0, nil) /\
         f closeMeta s0 = (s', Some e)) /\
    ((forall closeMeta s0, snd (f closeMeta s0) = nil) -> err = nil) /\
    (forall before closeMeta after s0 s1 e,
       ledgers = (before ++ closeMeta :: after)%list ->
       feed f before s = (before, s0, nil) ->
       f closeMeta s0 = (s1, Some e) ->
       delivered = (before ++ [closeMeta])%list /\ rest = after /\
       err = Some e /\ s' = s1) /\
    feed f ledgers s = (delivered, s', err).
Proof.
  intros Hh Hok stored ledgers.
  rewrite (run_StreamLedgerRange f s w startLedger endLedger Hh Hok).
  fold stored. fold ledgers.
  destruct (feed f ledgers s) as [[delivered s'] err] eqn:Hfeed.
  split; [apply Permutation_map, order_by_sequence_perm|].
  split.
  { unfold ledgers. rewrite ledger_of_sequence.
    - apply Sorted_map_sequence, order_by_sequence_sorted.
    - eapply forallb_perm; [apply Permutation_sym, order_by_sequence_perm|].
      now apply forallb_filter. }
  destruct (feed_prefix f ledgers s delivered s' err Hfeed) as (rest & Hl & Hnil & Herr).
  exists delivered, rest.
  split; [exact Hl|]. split; [reflexivity|].
  split; [cbn; now rewrite <- app_assoc|].
  split; [intros He; now apply Hnil|].
  split; [exact Herr|].
  split; [|split; [|reflexivity]].
  - intros Hf. destruct (feed_all f ledgers Hf s) as [s'' Hall].
    rewrite Hall in Hfeed. now inversion Hfeed.
  - intros before closeMeta after s0 s1 e Hsplit Hb Hf.
    rewrite Hsplit, (feed_stops f before after closeMeta s s0 s1 e Hb Hf) in Hfeed.
    injection Hfeed as <- <- <-.
    repeat split.
    rewrite Hsplit in Hl.
    replace (before ++ closeMeta :: after)%list
      with ((before ++ [closeMeta]) ++ after)%list in Hl
      by (now rewrite <- app_assoc).
    apply app_inv_head in Hl. now symmetry.
Qed.

Lemma StreamLedgerRange_delivery_witness :
  health (database Scenario.warm) = Healthy /\
  forallb row_ok (ledger_close_meta (database Scenario.warm)) = true /\
  runState (db.StreamLedgerRange 12 15 Scenario.collect []) Scenario.warm =
  (([12; 13; 14; 15], nil),
   delivered_to (log (EvQuery (range_query 12 15)) Scenario.warm)
     (map Scenario.ledger [12; 13; 14; 15])) /\
  snd (fst (runState (db.StreamLedgerRange 12 15 Scenario.collect [])
                     Scenario.warm)) = nil /\
  fst (runState (db.StreamLedgerRange 12 15 Scenario.done_after_13 [])
                Scenario.warm) = ([12; 13], Some (ErrorString "done")).
Proof.
  split; [reflexivity|]. split; [reflexivity|]. split; [reflexivity|]. split.
  - pose proof (StreamLedgerRange_delivery Scenario.collect [] Scenario.warm 12 15
                  eq_refl eq_refl) as H.
    cbv zeta in H.
    destruct (runState (db.StreamLedgerRange 12 15 Scenario.collect [])
                       Scenario.warm) as [[s' err] w'].
    destruct H as (_ & _ & delivered & rest & _ & _ & _ & _ & _ & H & _).
    apply H. reflexivity.
  - pose proof (StreamLedgerRange_delivery Scenario.done_after_13 [] Scenario.warm
                  12 15 eq_refl eq_refl) as H.
    cbv zeta in H.
    destruct (runState (db.StreamLedgerRange 12 15 Scenario.done_after_13 [])
                       Scenario.warm) as [[s' err] w'].
    destruct H as (_ & _ & delivered & rest & _ & _ & _ & _ & _ & _ & H & _).
    destruct (H [Scenario.ledger 12] (Scenario.ledger 13)
                [Scenario.ledger 14; Scenario.ledger 15] [12] [12; 13]
                (ErrorString "done") eq_refl eq_refl eq_refl)
      as (_ & _ & -> & ->).
    reflexivity.
Defined.

(** C8 as stated fails: the only way f has of ending the stream is the
    error it returns, and the stream returns that error.  Over the ledgers
    10..20, a sink that gives up after ledger 13 is called on 12 and 13 and
    on no other ledger, and StreamLedgerRange(12, 15) returns its error. *)
Lemma StreamLedgerRange_done_is_an_error :
  runState (db.StreamLedgerRange 12 15 Scenario.done_after_13 []) Scenario.warm =
  (([12; 13], Some (ErrorString "done")),
   delivered_to (log (EvQuery (range_query 12 15)) Scenario.warm)
     (map Scenario.ledger [12; 13])) /\
  snd (fst (runState (db.StreamLedgerRange 12 15 Scenario.done_after_13 [])
                     Scenario.warm)) <> nil.
Proof.
  split; [reflexivity | discriminate].
Qed.

(* ================================================================== *)
(** ** Parsing the hash *)

Lemma reverseHexTable_digit (c : ascii) :
  (15 <? hex.reverseHexTable c) = negb (is_hex_digit c).
Proof.
  destruct c as [[] [] [] [] [] [] [] []]; reflexivity.
Qed.

(** Induction on a list two elements at a time. *)
Lemma list_pair_ind {A : Type} (P : list A -> Prop) :
  P [] -> (forall a, P [a]) -> (forall a b l, P l -> P (a :: b :: l)) ->
  forall l, P l.
Proof.
  intros H0 H1 H2 l.
  enough (H : P l /\ forall a, P (a :: l)) by apply H.
  induction l as [|x l [IHl IHx]].
  - split; [exact H0 | exact H1].
  - split; [apply IHx | intros a; now apply H2].
Qed.

(** hex.Decode succeeds exactly on an even number of hex digits, and then
    writes half as many bytes. *)
Lemma Decode_ok (src : list ascii) :
  Nat.even (List.length src) = true -> forallb is_hex_digit src = true ->
  exists written, hex.Decode src = (written, nil) /\
                  (2 * List.length written = List.length src)%nat.
Proof.
  induction src as [|a|a b src IH] using list_pair_ind; intros Hev Hhex.
  - now exists [].
  - discriminate.
  - cbn [forallb] in Hhex. apply andb_true_iff in Hhex as [Ha Hhex].
    apply andb_true_iff in Hhex as [Hb Hhex].
    destruct (IH Hev Hhex) as (written & Hd & Hlen).
    cbn [hex.Decode]. rewrite !reverseHexTable_digit, Ha, Hb, Hd. cbn [negb].
    eexists. split; [reflexivity|]. cbn [List.length]. lia.
Qed.

Lemma Decode_fails (src : list ascii) :
  Nat.even (List.length src) = false \/ forallb is_hex_digit src = false ->
  exists e, snd (hex.Decode src) = Some e.
Proof.
  induction src as [|a|a b src IH] using list_pair_ind; intros H.
  - destruct H; discriminate.
  - cbn. destruct (15 <? hex.reverseHexTable a); eexists; reflexivity.
  - cbn [hex.Decode]. rewrite !reverseHexTable_digit.
    destruct (is_hex_digit a) eqn:Ha; cbn [negb]; [|eexists; reflexivity].
    destruct (is_hex_digit b) eqn:Hb; cbn [negb]; [|eexists; reflexivity].
    destruct IH as [e He].
    { destruct H as [H|H]; [now left | right].
      cbn [forallb] in H. now rewrite Ha, Hb in H. }
    destruct (hex.Decode src) as [written err]. cbn in He. subst err.
    exists e. reflexivity.
Qed.

Lemma length_list_ascii_of_string (h : string) :
  List.length (list_ascii_of_string h) = String.length h.
Proof. induction h as [|c h IH]; cbn; congruence. Qed.

(** The strings [well_formed_hash] accepts are those that hex.Decode turns
    into exactly 32 bytes. *)
Lemma well_formed_hash_decodes (h : string) :
  well_formed_hash h = true <->
  exists written, hex.Decode (list_ascii_of_string h) = (written, nil) /\
                  List.length written = 32%nat.
Proof.
  unfold well_formed_hash. rewrite andb_true_iff, Nat.eqb_eq. split.
  - intros [Hlen Hhex].
    destruct (Decode_ok (list_ascii_of_string h)) as (written & Hd & Hw).
    + rewrite length_list_ascii_of_string, Hlen. reflexivity.
    + exact Hhex.
    + exists written. split; [exact Hd|].
      rewrite length_list_ascii_of_string, Hlen in Hw. lia.
  - intros (written & Hd & Hw).
    destruct (Nat.even (List.length (list_ascii_of_string h))) eqn:Hev;
      [destruct (forallb is_hex_digit (list_ascii_of_string h)) eqn:Hhex|].
    + split; [|reflexivity].
      destruct (Decode_ok _ Hev Hhex) as (written' & Hd' & Hw').
      rewrite Hd in Hd'. inversion Hd'; subst written'.
      rewrite length_list_ascii_of_string in Hw'. lia.
    + destruct (Decode_fails (list_ascii_of_string h)) as [e He]; [now right|].
      rewrite Hd in He. discriminate.
    + destruct (Decode_fails (list_ascii_of_string h)) as [e He]; [now left|].
      rewrite Hd in He. discriminate.
Qed.

(** The length check of GetTransaction lets through the strings of 64 and
    of 65 bytes. *)
Lemma DecodedLen_32 (n : nat) :
  hex.DecodedLen (Z.of_nat n) = xdr.Hash_len <-> n = 64%nat \/ n = 65%nat.
Proof.
  unfold hex.DecodedLen, xdr.Hash_len. split.
  - intros H.
    assert (64 <= Z.of_nat n < 66) by (pose proof (Z.div_mod (Z.of_nat n) 2);
      pose proof (Z.mod_pos_bound (Z.of_nat n) 2); lia).
    lia.
  - intros [->| ->]; reflexivity.
Qed.

Lemma Decode_nil_inv (src written : list ascii) :
  hex.Decode src = (written, nil) ->
  Nat.even (List.length src) = true /\ forallb is_hex_digit src = true.
Proof.
  intros Hd.
  destruct (Nat.even (List.length src)) eqn:Hev;
    [destruct (forallb is_hex_digit src) eqn:Hhex; [now split|]|].
  - destruct (Decode_fails src) as [e He]; [now right|].
    rewrite Hd in He. discriminate.
  - destruct (Decode_fails src) as [e He]; [now left|].
    rewrite Hd in He. discriminate.
Qed.

(** A string that passes the length check and decodes is well formed. *)
Lemma checked_hash_well_formed (h : string) (written : list ascii) :
  hex.DecodedLen (Z.of_nat (String.length h)) = xdr.Hash_len ->
  hex.Decode (list_ascii_of_string h) = (written, nil) ->
  well_formed_hash h = true.
Proof.
  intros Hlen Hd. apply DecodedLen_32 in Hlen.
  apply Decode_nil_inv in Hd as [Hev Hhex].
  rewrite length_list_ascii_of_string in Hev.
  unfold well_formed_hash. rewrite Hhex, andb_true_r. apply Nat.eqb_eq.
  destruct Hlen as [Hl|Hl]; [exact Hl|]. rewrite Hl in Hev. discriminate.
Qed.

(* ================================================================== *)
(** ** GetTransaction *)

Section GetTransactionRuns.

Variable env : methods.Declared.
Variable reader : db.TransactionReader.
Variable ledgerReader : db.LedgerReader.

(** A hash that is not 64 hex digits is refused before anything is
    asked of the ledger reader or of the transaction reader. *)
Lemma run_GetTransaction_malformed (request : methods.GetTransactionRequest)
    (w : World) :
  well_formed_hash (methods.Hash request) = false ->
  exists msg,
    runState (methods.GetTransaction env reader ledgerReader request) w =
    ((methods.zero, Some (JrpcError jrpc2.InvalidParams msg)), w).
Proof.
  intros Hwf. unfold methods.GetTransaction.
  destruct (methods.IsValidFormat env (methods.Format request)) as [e|];
    [eexists; reflexivity|].
  destruct (Z.eqb_spec (hex.DecodedLen (Z.of_nat (String.length (methods.Hash request))))
              xdr.Hash_len) as [Hlen|Hlen]; cbn [negb];
    [|eexists; reflexivity].
  destruct (hex.Decode _) as [written [e|]] eqn:Hd; [eexists; reflexivity|].
  rewrite (checked_hash_well_formed _ _ Hlen Hd) in Hwf. discriminate.
Qed.

(** What GetTransaction does once the request has been parsed. *)
Lemma run_GetTransaction_parsed (request : methods.GetTransactionRequest)
    (w : World) :
  methods.IsValidFormat env (methods.Format request) = nil ->
  well_formed_hash (methods.Hash request) = true ->
  runState (methods.GetTransaction env reader ledgerReader request) w =
  let '((storeRange, err), w1) :=
    runState (db.LedgerReader_GetLedgerRange ledgerReader) w in
  match err with
  | Some e =>
      ((methods.zero,
        Some (JrpcError jrpc2.InternalError
                ("unable to get ledger range: " ++ Error e))), w1)
  | None =>
      let txHash := decode_hash (methods.Hash request) in
      let '((tx, err), w2) :=
        runState (db.TransactionReader_GetTransaction reader txHash)
                 (log (EvGetTransaction txHash) w1) in
      let response := methods.set_range methods.zero storeRange in
      if errors.Is err (methods.ErrNoTransaction env) then
        ((methods.set_Status response methods.TransactionStatusNotFound, nil), w2)
      else
        match err with
        | Some e =>
            ((response, Some (JrpcError jrpc2.InternalError (Error e))),
             log (EvLogError "failed to fetch transaction") w2)
        | None =>
            (methods.render env request (methods.set_placement response tx) tx, w2)
        end
  end.
Proof.
  intros Hfmt Hwf. unfold methods.GetTransaction. rewrite Hfmt.
  pose proof Hwf as Hwf'. apply well_formed_hash_decodes in Hwf' as (written & Hd & Hw).
  assert (Hlen : hex.DecodedLen (Z.of_nat (String.length (methods.Hash request)))
                 = xdr.Hash_len).
  { apply DecodedLen_32. left. unfold well_formed_hash in Hwf.
    apply andb_true_iff in Hwf as [Hwf _]. now apply Nat.eqb_eq. }
  rewrite Hlen. cbn [Z.eqb xdr.Hash_len Pos.eqb negb].
  unfold decode_hash. rewrite Hd. cbn [fst].
  rewrite run_bind.
  destruct (runState (db.LedgerReader_GetLedgerRange ledgerReader) w)
    as [[storeRange [e|]] w1]; [reflexivity|].
  rewrite run_bind. unfold methods.call_reader. rewrite run_bind, run_emit.
  destruct (runState (db.TransactionReader_GetTransaction reader (xdr.Hash_of written))
                     (log (EvGetTransaction (xdr.Hash_of written)) w1))
    as [[tx err] w2].
  destruct (errors.Is err (methods.ErrNoTransaction env)); [reflexivity|].
  destruct err as [e|]; reflexivity.
Qed.

(** A response without an error comes from a request that parsed. *)
Lemma GetTransaction_nil_parsed (request : methods.GetTransactionRequest)
    (w w' : World) (response : methods.GetTransactionResponse) :
  runState (methods.GetTransaction env reader ledgerReader request) w
  = ((response, nil), w') ->
  methods.IsValidFormat env (methods.Format request) = nil /\
  well_formed_hash (methods.Hash request) = true.
Proof.
  intros Hrun. split.
  - unfold methods.GetTransaction in Hrun.
    destruct (methods.IsValidFormat env (methods.Format request)); [|reflexivity].
    discriminate.
  - destruct (well_formed_hash (methods.Hash request)) eqn:Hwf; [reflexivity|].
    destruct (run_GetTransaction_malformed request w Hwf) as [msg Hm].
    rewrite Hm in Hrun. discriminate.
Qed.


(** In a format other than JSON render does not fail and encodes the
    events it is given, whatever the status. *)
Lemma render_xdr (request : methods.GetTransactionRequest)
    (response : methods.GetTransactionResponse) (tx : db.Transaction) :
  String.eqb (methods.Format request) (methods.FormatJSON env) = false ->
  methods.render env request response tx =
  (methods.set_Status
     (methods.set_xdr response
        (base64.EncodeToString (db.Result tx))
        (base64.EncodeToString (db.Envelope tx))
        (base64.EncodeToString (db.Meta tx))
        (methods.base64EncodeSlice env (db.Events tx)))
     (if db.Successful tx then methods.TransactionStatusSuccess
      else methods.TransactionStatusFailed), nil).
Proof. intros H. unfold methods.render. now rewrite H. Qed.

End GetTransactionRuns.

Lemma Decode_odd_hex (src : list ascii) :
  Nat.even (List.length src) = false -> forallb is_hex_digit src = true ->
  snd (hex.Decode src) = Some ErrLength.
Proof.
  induction src as [|a|a b src IH] using list_pair_ind; intros Hev Hhex.
  - discriminate.
  - cbn [forallb] in Hhex. apply andb_true_iff in Hhex as [Ha _].
    cbn [hex.Decode]. rewrite reverseHexTable_digit, Ha. reflexivity.
  - cbn [forallb] in Hhex. apply andb_true_iff in Hhex as [Ha Hhex].
    apply andb_true_iff in Hhex as [Hb Hhex].
    cbn [hex.Decode]. rewrite !reverseHexTable_digit, Ha, Hb. cbn [negb].
    specialize (IH Hev Hhex).
    destruct (hex.Decode src) as [written err]. exact IH.
Qed.

(* ================================================================== *)
(** ** The claims about getTransaction *)

(** C4. A getTransaction request whose hash is not 64 hex digits, that is,
    does not decode to exactly 32 bytes, fails with InvalidParams (-32602)
    and leaves the world as it was: no statement is sent and the
    transaction reader is not called.  For the hash "ab" in a valid format
    the message is "unexpected hash length (2)". *)
Theorem GetTransaction_malformed_hash (env : methods.Declared)
    (reader : db.TransactionReader) (ledgerReader : db.LedgerReader)
    (request : methods.GetTransactionRequest) (w : World) :
  well_formed_hash (methods.Hash request) = false ->
  (exists msg,
     runState (methods.GetTransaction env reader ledgerReader request) w =
     ((methods.zero, Some (JrpcError (-32602) msg)), w)) /\
  (methods.IsValidFormat env (methods.Format request) = nil ->
   methods.Hash request = "ab" ->
   runState (methods.GetTransaction env reader ledgerReader request) w =
   ((methods.zero, Some (JrpcError (-32602) "unexpected hash length (2)")), w)).
Proof.
  intros Hwf. split.
  - exact (run_GetTransaction_malformed env reader ledgerReader request w Hwf).
  - intros Hfmt Hab. unfold methods.GetTransaction. rewrite Hfmt, Hab. reflexivity.
Qed.

Lemma GetTransaction_malformed_hash_witness :
  well_formed_hash "ab" = false /\
  runState (methods.GetTransaction Scenario.declared Scenario.reader
              (db.NewLedgerReader Scenario.ErrEmptyDB) (Scenario.request "ab"))
           Scenario.warm =
  ((methods.zero, Some (JrpcError (-32602) "unexpected hash length (2)")),
   Scenario.warm).
Proof.
  split; [reflexivity|].
  apply (proj2 (GetTransaction_malformed_hash Scenario.declared Scenario.reader
                  (db.NewLedgerReader Scenario.ErrEmptyDB) (Scenario.request "ab")
                  Scenario.warm eq_refl));
    reflexivity.
Defined.

(** C10. The length check compares DecodedLen, which halves and rounds
    down, so it lets through hashes of 64 and of 65 bytes and no others.  A
    hash of 65 bytes in a valid format passes the check and fails in
    hex.Decode: the call returns InvalidParams with the message
    "incorrect hash: " and the text of the hex error (odd length when all
    65 bytes are hex digits), not "unexpected hash length", and the world
    is as it was.  So every hash that is not well formed gives InvalidParams
    before the store is touched. *)
Theorem GetTransaction_hash_of_65_bytes (env : methods.Declared)
    (reader : db.TransactionReader) (ledgerReader : db.LedgerReader)
    (request : methods.GetTransactionRequest) (w : World) :
  methods.IsValidFormat env (methods.Format request) = nil ->
  String.length (methods.Hash request) = 65%nat ->
  (forall n : nat,
     hex.DecodedLen (Z.of_nat n) = xdr.Hash_len <-> n = 64%nat \/ n = 65%nat) /\
  (exists e,
     snd (hex.Decode (list_ascii_of_string (methods.Hash request))) = Some e /\
     (forallb is_hex_digit (list_ascii_of_string (methods.Hash request)) = true ->
      e = ErrLength) /\
     runState (methods.GetTransaction env reader ledgerReader request) w =
     ((methods.zero,
       Some (JrpcError jrpc2.InvalidParams ("incorrect hash: " ++ Error e))), w)) /\
  (forall request' w',
     well_formed_hash (methods.Hash request') = false ->
     exists msg,
       runState (methods.GetTransaction env reader ledgerReader request') w' =
       ((methods.zero, Some (JrpcError jrpc2.InvalidParams msg)), w')).
Proof.
  intros Hfmt Hlen. split; [exact DecodedLen_32|]. split.
  - assert (Hev : Nat.even (List.length (list_ascii_of_string (methods.Hash request)))
                  = false)
      by (rewrite length_list_ascii_of_string, Hlen; reflexivity).
    destruct (Decode_fails (list_ascii_of_string (methods.Hash request)))
      as [e He]; [now left|].
    exists e. split; [exact He|]. split.
    + intros Hhex. rewrite (Decode_odd_hex _ Hev Hhex) in He. now inversion He.
    + unfold methods.GetTransaction. rewrite Hfmt, Hlen.
      cbn [negb Z.eqb hex.DecodedLen Z.of_nat].
      change (negb (hex.DecodedLen (Z.of_nat 65) =? xdr.Hash_len)) with false.
      cbv iota.
      destruct (hex.Decode (list_ascii_of_string (methods.Hash request)))
        as [written err]. cbn in He. subst err. reflexivity.
  - intros request' w' Hwf.
    exact (run_GetTransaction_malformed env reader ledgerReader request' w' Hwf).
Qed.

Lemma GetTransaction_hash_of_65_bytes_witness :
  methods.IsValidFormat Scenario.declared "" = nil /\
  String.length (Scenario.hash_AA ++ "A") = 65%nat /\
  runState (methods.GetTransaction Scenario.declared Scenario.reader
              (db.NewLedgerReader Scenario.ErrEmptyDB)
              (Scenario.request (Scenario.hash_AA ++ "A")))
           Scenario.warm =
  ((methods.zero,
    Some (JrpcError (-32602) "incorrect hash: encoding/hex: odd length hex string")),
   Scenario.warm).
Proof.
  split; [reflexivity|]. split; [reflexivity|].
  destruct (proj1 (proj2
    (GetTransaction_hash_of_65_bytes Scenario.declared Scenario.reader
       (db.NewLedgerReader Scenario.ErrEmptyDB)
       (Scenario.request (Scenario.hash_AA ++ "A")) Scenario.warm
       eq_refl eq_refl))) as (e & _ & He & Hrun).
  rewrite Hrun, (He eq_refl). reflexivity.
Defined.

(** C9. When the table has no rows GetLedgerRange returns ErrEmptyDB,
    unless the driver refuses the statement, and a getTransaction call with
    a valid format and a well-formed hash returns the zero response, whose
    status is not NOT_FOUND, with an internal error (-32603) made from the
    error of GetLedgerRange; the transaction reader is not called. *)
Theorem empty_store_is_an_internal_error (ErrEmptyDB : GoError)
    (env : methods.Declared) (reader : db.TransactionReader)
    (request : methods.GetTransactionRequest) (w : World) :
  ledger_close_meta (database w) = [] ->
  ((forall e, health (database w) <> Unavailable e) ->
   fst (runState (db.GetLedgerRange ErrEmptyDB) w)
   = (ledgerbucketwindow.zero, Some ErrEmptyDB)) /\
  (methods.IsValidFormat env (methods.Format request) = nil ->
   well_formed_hash (methods.Hash request) = true ->
   exists msg sql,
     runState (methods.GetTransaction env reader (db.NewLedgerReader ErrEmptyDB)
                 request) w
     = ((methods.zero, Some (JrpcError (-32603) msg)), log (EvQuery sql) w) /\
     methods.Status methods.zero <> methods.TransactionStatusNotFound /\
     ((forall e, health (database w) <> Unavailable e) ->
      msg = "unable to get ledger range: " ++ Error ErrEmptyDB)).
Proof.
  intros Ht.
  destruct (GetLedgerRange_empty ErrEmptyDB w Ht) as (e & He & Hsentinel).
  split.
  - intros Hh. rewrite He, (Hsentinel Hh). reflexivity.
  - intros Hfmt Hwf.
    rewrite (run_GetTransaction_parsed env reader _ request w Hfmt Hwf).
    cbn [db.LedgerReader_GetLedgerRange db.NewLedgerReader].
    assert (Hw : exists sql, snd (runState (db.GetLedgerRange ErrEmptyDB) w)
                             = log (EvQuery sql) w).
    { destruct (Z.eq_dec (latestLedgerSeq (cache (database w))) 0) as [Hc|Hc].
      - rewrite (run_GetLedgerRange_cold _ _ Hc). eexists. reflexivity.
      - rewrite (run_GetLedgerRange_warm _ _ Hc). eexists. reflexivity. }
    destruct Hw as [sql Hw].
    destruct (runState (db.GetLedgerRange ErrEmptyDB) w) as [[storeRange err] w1].
    cbn in He, Hw. inversion He; subst.
    eexists. exists sql. split; [reflexivity|]. split; [discriminate|].
    intros Hh. now rewrite (Hsentinel Hh).
Qed.

Lemma empty_store_is_an_internal_error_witness :
  ledger_close_meta (database Scenario.empty) = [] /\
  fst (runState (db.GetLedgerRange Scenario.ErrEmptyDB) Scenario.empty)
  = (ledgerbucketwindow.zero, Some Scenario.ErrEmptyDB) /\
  fst (runState (methods.GetTransaction Scenario.declared Scenario.reader
                   (db.NewLedgerReader Scenario.ErrEmptyDB)
                   (Scenario.request Scenario.hash_AA)) Scenario.empty)
  = (methods.zero,
     Some (JrpcError (-32603) "unable to get ledger range: DB is empty")).
Proof.
  split; [reflexivity|]. split.
  - apply (proj1 (empty_store_is_an_internal_error Scenario.ErrEmptyDB
                    Scenario.declared Scenario.reader
                    (Scenario.request Scenario.hash_AA) Scenario.empty eq_refl)).
    intros e; discriminate.
  - reflexivity.
Defined.

(** C3. A getTransaction response returned without an error, NOT_FOUND
    included, carries as latestLedger, latestLedgerCloseTime, oldestLedger
    and oldestLedgerCloseTime the range that the ledger reader's
    GetLedgerRange returned in the world of the call; with the reader of
    package db and a cached latest sequence other than zero, its latest
    ledger is the cached one. *)
Theorem GetTransaction_carries_range (env : methods.Declared)
    (reader : db.TransactionReader) (ledgerReader : db.LedgerReader)
    (request : methods.GetTransactionRequest) (w w' : World)
    (response : methods.GetTransactionResponse) :
  runState (methods.GetTransaction env reader ledgerReader request) w
  = ((response, nil), w') ->
  exists storeRange w1,
    runState (db.LedgerReader_GetLedgerRange ledgerReader) w
    = ((storeRange, nil), w1) /\
    methods.LatestLedger response = Sequence (LastLedger storeRange) /\
    methods.LatestLedgerCloseTime response = CloseTime (LastLedger storeRange) /\
    methods.OldestLedger response = Sequence (FirstLedger storeRange) /\
    methods.OldestLedgerCloseTime response = CloseTime (FirstLedger storeRange) /\
    (forall ErrEmptyDB,
       ledgerReader = db.NewLedgerReader ErrEmptyDB ->
       latestLedgerSeq (cache (database w)) <> 0 ->
       LastLedger storeRange = cached_latest w).
Proof.
  intros Hrun.
  destruct (GetTransaction_nil_parsed env reader ledgerReader request w w' response Hrun)
    as [Hfmt Hwf].
  rewrite (run_GetTransaction_parsed env reader ledgerReader request w Hfmt Hwf) in Hrun.
  destruct (runState (db.LedgerReader_GetLedgerRange ledgerReader) w)
    as [[storeRange [e|]] w1] eqn:Hrange; [discriminate|].
  exists storeRange, w1. split; [reflexivity|].
  assert (Hfields :
    methods.LatestLedger response = Sequence (LastLedger storeRange) /\
    methods.LatestLedgerCloseTime response = CloseTime (LastLedger storeRange) /\
    methods.OldestLedger response = Sequence (FirstLedger storeRange) /\
    methods.OldestLedgerCloseTime response = CloseTime (FirstLedger storeRange)).
  { cbv zeta in Hrun.
    destruct (runState _ (log _ w1)) as [[tx err] w2].
    destruct (errors.Is err (methods.ErrNoTransaction env)).
    - inversion Hrun; subst. now repeat split.
    - destruct err as [e|]; [discriminate|].
      unfold methods.render in Hrun.
      destruct (String.eqb _ _).
      + destruct (methods.transactionToJSON env tx) as [[[result envelope] meta] [e|]];
          [discriminate|].
        destruct (methods.jsonifySlice env (db.Events tx)) as [diagEvents [e|]];
          [discriminate|].
        inversion Hrun; subst. now repeat split.
      + inversion Hrun; subst. now repeat split. }
  destruct Hfields as (H1 & H2 & H3 & H4).
  repeat (split; [assumption|]).
  intros ErrEmptyDB -> Hc.
  cbn [db.LedgerReader_GetLedgerRange db.NewLedgerReader] in Hrange.
  rewrite (run_GetLedgerRange_warm _ _ Hc) in Hrange.
  destruct (scan_cursor _) as [[|lcm0 rest] [e|]]; inversion Hrange; reflexivity.
Qed.

Lemma GetTransaction_carries_range_witness :
  exists response w',
    runState (methods.GetTransaction Scenario.declared Scenario.reader
                (db.NewLedgerReader Scenario.ErrEmptyDB)
                (Scenario.request Scenario.hash_BB)) Scenario.warm
    = ((response, nil), w') /\
    methods.Status response = "NOT_FOUND" /\
    methods.LatestLedger response = 20 /\
    methods.OldestLedger response = 10 /\
    exists storeRange w1,
      runState (db.GetLedgerRange Scenario.ErrEmptyDB) Scenario.warm
      = ((storeRange, nil), w1) /\
      methods.LatestLedger response = Sequence (LastLedger storeRange).
Proof.
  eexists. eexists. split; [reflexivity|].
  split; [reflexivity|]. split; [reflexivity|]. split; [reflexivity|].
  destruct (GetTransaction_carries_range Scenario.declared Scenario.reader
              (db.NewLedgerReader Scenario.ErrEmptyDB)
              (Scenario.request Scenario.hash_BB) Scenario.warm _ _ eq_refl)
    as (storeRange & w1 & Hr & Hl & _).
  exists storeRange, w1. split; [exact Hr | exact Hl].
Defined.






(** C1 fails on the code. For a transaction the reader finds, asked in a
    format other than JSON, the response has the status SUCCESS or FAILED
    after the flag Successful and, whatever that status, carries as
    diagnosticEventsXdr the encoding of the events of the transaction: the
    field is written exactly when that encoding is not empty, also in a
    SUCCESS response. *)
Theorem GetTransaction_found_carries_events (env : methods.Declared)
    (reader : db.TransactionReader) (ledgerReader : db.LedgerReader)
    (request : methods.GetTransactionRequest) (w w1 w2 : World)
    (storeRange : LedgerRange) (tx : db.Transaction) :
  methods.IsValidFormat env (methods.Format request) = nil ->
  well_formed_hash (methods.Hash request) = true ->
  String.eqb (methods.Format request) (methods.FormatJSON env) = false ->
  runState (db.LedgerReader_GetLedgerRange ledgerReader) w
  = ((storeRange, nil), w1) ->
  runState (db.TransactionReader_GetTransaction reader
              (decode_hash (methods.Hash request)))
           (log (EvGetTransaction (decode_hash (methods.Hash request))) w1)
  = ((tx, nil), w2) ->
  exists response,
    runState (methods.GetTransaction env reader ledgerReader request) w
    = ((response, nil), w2) /\
    methods.Status response
    = (if db.Successful tx then methods.TransactionStatusSuccess
       else methods.TransactionStatusFailed) /\
    methods.DiagnosticEventsXDR response
    = methods.base64EncodeSlice env (db.Events tx) /\
    methods.has_diagnostic_events response
    = negb (List.length (methods.base64EncodeSlice env (db.Events tx)) =? 0)%nat.
Proof.
  intros Hfmt Hwf Hx Hrange Hfound.
  rewrite (run_GetTransaction_parsed env reader ledgerReader request w Hfmt Hwf).
  rewrite Hrange. cbv zeta. rewrite Hfound.
  cbn [errors.Is]. rewrite (render_xdr env request _ tx Hx).
  eexists. split; [reflexivity|].
  split; [reflexivity|]. split; [reflexivity|].
  unfold methods.has_diagnostic_events. cbn. now rewrite orb_false_r.
Qed.

Lemma GetTransaction_found_carries_events_witness :
  exists response,
    runState (methods.GetTransaction Scenario.declared Scenario.reader
                (db.NewLedgerReader Scenario.ErrEmptyDB)
                (Scenario.request Scenario.hash_AA)) Scenario.warm
    = ((response, nil),
       log (EvGetTransaction (decode_hash Scenario.hash_AA))
         (log (EvQuery db.oldest_query) Scenario.warm)) /\
    methods.Status response = "SUCCESS" /\
    methods.DiagnosticEventsXDR response = ["TWFu"] /\
    methods.has_diagnostic_events response = true.
Proof.
  destruct (GetTransaction_found_carries_events Scenario.declared Scenario.reader
              (db.NewLedgerReader Scenario.ErrEmptyDB)
              (Scenario.request Scenario.hash_AA) Scenario.warm _ _ _ Scenario.tx_AA
              eq_refl eq_refl eq_refl eq_refl eq_refl)
    as (response & Hrun & Hstatus & Hevents & Hhas).
  exists response. split; [exact Hrun|].
  split; [exact Hstatus|]. split; [exact Hevents | exact Hhas].
Defined.

(* ================================================================== *)
(** ** Further properties of the readers of ledger.go *)

Lemma with_trace_same (w : World) : with_trace (trace w) w = w.
Proof. now destruct w. Qed.

(** The loop of a stream reads nothing of the world and adds to the trace
    the calls of the sink only. *)
Lemma stream_rows_shape {S : Type} (f : db.StreamLedgerFn S)
    (blobs : list Blob) (final : error) :
  forall s : S,
  exists result calls,
    Forall (fun ev => exists closeMeta, ev = EvSink closeMeta) calls /\
    forall w, runState (db.stream_rows f blobs final s) w
              = (result, with_trace (trace w ++ calls) w).
Proof.
  induction blobs as [|b blobs IH]; intros s.
  - exists (s, final), []. split; [constructor|]. intros w. cbn.
    now rewrite app_nil_r, with_trace_same.
  - destruct b as [lcm|why].
    + cbn [db.stream_rows Scan]. destruct (f lcm s) as [s' [e|]] eqn:Ef.
      * exists (s', Some e), [EvSink lcm]. split; [repeat constructor; now exists lcm|].
        intros w. rewrite run_bind. unfold db.call_sink.
        rewrite run_bind, run_emit, run_ret, Ef. reflexivity.
      * destruct (IH s') as (result & calls & Hcalls & Hrun).
        exists result, (EvSink lcm :: calls).
        split; [constructor; [now exists lcm | exact Hcalls]|].
        intros w. rewrite run_bind. unfold db.call_sink.
        rewrite run_bind, run_emit, run_ret, Ef, Hrun.
        unfold with_trace, log. cbn. now rewrite <- app_assoc.
    + exists (s, Some why), []. split; [constructor|]. intros w. cbn.
      now rewrite app_nil_r, with_trace_same.
Qed.

Lemma GoError_eqb_refl (x : GoError) : GoError_eqb x x = true.
Proof.
  induction x as [t|p x IH| |b|c m]; cbn.
  - apply String.eqb_refl.
  - now rewrite String.eqb_refl, IH.
  - reflexivity.
  - apply Ascii.eqb_refl.
  - now rewrite Z.eqb_refl, String.eqb_refl.
Qed.

(** errors.Is finds an error under any number of wrappings. *)
Lemma errors_Is_wrapped (prefix : string) (e target : GoError) :
  errors.Is (Some e) target = true ->
  errors.Is (Some (Wrapf prefix e)) target = true.
Proof. cbn. intros H. rewrite H. apply orb_true_r. Qed.

Lemma errors_Is_refl (e : GoError) : errors.Is (Some e) e = true.
Proof. cbn. destruct e; cbn; now rewrite ?GoError_eqb_refl, ?String.eqb_refl,
  ?Ascii.eqb_refl, ?Z.eqb_refl. Qed.

(** X2. When the driver refuses every statement with an error e, each
    operation of ledger.go returns e and does nothing else: GetLedger
    returns the zero ledger and found = false, the streams do not call the
    sink and leave its state, trimLedgers deletes nothing when it sends its
    DELETE, and GetLedgerRange returns the zero range with e wrapped under
    the text "couldn't query ledger range: ", so that errors.Is finds e. *)
Theorem refused_statement_is_returned (w : World) (e : GoError) :
  health (database w) = Unavailable e ->
  (forall seq, fst (runState (db.GetLedger seq) w) = (xdr.zero, false, Some e)) /\
  (forall ErrEmptyDB,
     fst (runState (db.GetLedgerRange ErrEmptyDB) w)
     = (zero, Some (Wrapf "couldn't query ledger range: " e))) /\
  errors.Is (Some (Wrapf "couldn't query ledger range: " e)) e = true /\
  (forall (S : Type) (f : db.StreamLedgerFn S) (s : S),
     runState (db.StreamAllLedgers f s) w = ((s, Some e), log (EvQuery all_query) w)) /\
  (forall (S : Type) (f : db.StreamLedgerFn S) (s : S) startLedger endLedger,
     runState (db.StreamLedgerRange startLedger endLedger f s) w
     = ((s, Some e), log (EvQuery (range_query startLedger endLedger)) w)) /\
  (forall L W, (u32 (L + 1) <=? W) = false ->
     fst (runState (db.trimLedgers L W) w) = Some e /\
     database (snd (runState (db.trimLedgers L W) w)) = database w).
Proof.
  intros Hh.
  assert (Hopen : forall sql, open_cursor (database w) sql
                              = ({| pending := []; Err := nil |}, Some e))
    by (intros sql; unfold open_cursor; now rewrite Hh).
  split; [|split; [|split; [|split; [|split]]]].
  - intros seq. unfold db.GetLedger. now rewrite run_bind, run_Select, Hopen.
  - intros ErrEmptyDB.
    destruct (Z.eq_dec (latestLedgerSeq (cache (database w))) 0) as [Hc|Hc].
    + now rewrite (run_GetLedgerRange_cold _ _ Hc), Hopen.
    + now rewrite (run_GetLedgerRange_warm _ _ Hc), Hopen.
  - apply errors_Is_wrapped, errors_Is_refl.
  - intros S f s. unfold db.StreamAllLedgers.
    now rewrite run_bind, run_Query, Hopen.
  - intros S f s startLedger endLedger. unfold db.StreamLedgerRange.
    now rewrite run_bind, run_Query, Hopen.
  - intros L W HLW. unfold db.trimLedgers. rewrite HLW, run_Exec.
    unfold run_delete. now rewrite Hh.
Qed.

Lemma refused_statement_is_returned_witness :
  health (database (refusing (ErrorString "disk I/O error") Scenario.warm))
  = Unavailable (ErrorString "disk I/O error") /\
  fst (runState (db.GetLedger 12) (refusing (ErrorString "disk I/O error") Scenario.warm))
  = (xdr.zero, false, Some (ErrorString "disk I/O error")).
Proof.
  split; [reflexivity|].
  apply (proj1 (refused_statement_is_returned
                  (refusing (ErrorString "disk I/O error") Scenario.warm)
                  (ErrorString "disk I/O error") eq_refl)).
Defined.

Lemma filter_all {A : Type} (p : A -> bool) (l : list A) :
  (forall x, In x l -> p x = true) -> filter p l = l.
Proof.
  induction l as [|x l IH]; cbn; intros H; [reflexivity|].
  rewrite (H x (or_introl eq_refl)). f_equal. apply IH. intros y Hy. apply H. now right.
Qed.

Lemma filter_none {A : Type} (p : A -> bool) (l : list A) :
  (forall x, In x l -> p x = false) -> filter p l = [].
Proof.
  induction l as [|x l IH]; cbn; intros H; [reflexivity|].
  rewrite (H x (or_introl eq_refl)). apply IH. intros y Hy. apply H. now right.
Qed.

Lemma select_all_rows (t : list Row) :
  select_rows t all_query = order_by_sequence t.
Proof.
  unfold select_rows, all_query; cbn. f_equal. now apply filter_all.
Qed.

(** X3. When every stored sequence lies in [startLedger, endLedger],
    StreamAllLedgers and StreamLedgerRange(startLedger, endLedger) do the
    same but for the statement they send: the same calls of the sink in the
    same order, the same state of the sink, the same error, whatever the
    driver and the sink do. *)
Theorem StreamAllLedgers_is_the_covering_range {S : Type}
    (f : db.StreamLedgerFn S) (s : S) (w : World) (startLedger endLedger : Z) :
  (forall r, In r (ledger_close_meta (database w)) ->
             startLedger <= sequence r <= endLedger) ->
  exists result calls,
    runState (db.StreamAllLedgers f s) w
    = (result, with_trace (trace w ++ EvQuery all_query :: calls) w) /\
    runState (db.StreamLedgerRange startLedger endLedger f s) w
    = (result,
       with_trace (trace w ++ EvQuery (range_query startLedger endLedger) :: calls) w).
Proof.
  intros Hcover.
  assert (Hsame : open_cursor (database w) (range_query startLedger endLedger)
                  = open_cursor (database w) all_query).
  { unfold open_cursor. rewrite select_range_rows, select_all_rows.
    rewrite filter_all; [reflexivity|].
    intros r Hr. unfold in_range. specialize (Hcover r Hr).
    apply andb_true_iff. split; apply Z.leb_le; lia. }
  unfold db.StreamAllLedgers, db.StreamLedgerRange.
  fold all_query. fold (range_query startLedger endLedger).
  rewrite !run_bind, !run_Query, Hsame.
  destruct (open_cursor (database w) all_query) as [q [e|]].
  - exists (s, Some e), []. split; reflexivity.
  - destruct (stream_rows_shape f (pending q) (Err q) s)
      as (result & calls & _ & Hrun).
    exists result, calls. rewrite !Hrun.
    unfold with_trace, log. cbn. rewrite <- !app_assoc. split; reflexivity.
Qed.

Lemma StreamAllLedgers_is_the_covering_range_witness :
  (forall r, In r (ledger_close_meta (database Scenario.warm)) ->
             0 <= sequence r <= 4294967295) /\
  fst (runState (db.StreamAllLedgers Scenario.done_after_13 []) Scenario.warm)
  = fst (runState (db.StreamLedgerRange 0 4294967295 Scenario.done_after_13 [])
                  Scenario.warm).
Proof.
  assert (H : forall r, In r (ledger_close_meta (database Scenario.warm)) ->
                        0 <= sequence r <= 4294967295).
  { intros r Hr. cbn in Hr.
    repeat (destruct Hr as [<-|Hr]; [cbn; lia|]). destruct Hr. }
  split; [exact H|].
  destruct (StreamAllLedgers_is_the_covering_range Scenario.done_after_13 []
              Scenario.warm 0 4294967295 H) as (result & calls & Ha & Hr).
  rewrite Ha, Hr. reflexivity.
Defined.

(** X4. A range whose end is below its start holds no ledger:
    StreamLedgerRange sends its SELECT, does not call the sink and returns
    no error, unless the driver refuses the statement. *)
Theorem StreamLedgerRange_of_an_empty_range {S : Type}
    (f : db.StreamLedgerFn S) (s : S) (w : World) (startLedger endLedger : Z) :
  endLedger < startLedger ->
  (forall e, health (database w) <> Unavailable e) ->
  runState (db.StreamLedgerRange startLedger endLedger f s) w
  = ((s, nil), log (EvQuery (range_query startLedger endLedger)) w).
Proof.
  intros Hlt Hh. unfold db.StreamLedgerRange.
  fold (range_query startLedger endLedger).
  rewrite run_bind, run_Query. unfold open_cursor.
  rewrite select_range_rows, filter_none.
  - destruct (health (database w)) as [|e|n e]; try reflexivity.
    now destruct (Hh e).
  - intros r _. unfold in_range.
    destruct (Z.leb_spec startLedger (sequence r)),
             (Z.leb_spec (sequence r) endLedger); try reflexivity; lia.
Qed.

Lemma StreamLedgerRange_of_an_empty_range_witness :
  15 < 16 /\
  (forall e, health (database Scenario.warm) <> Unavailable e) /\
  runState (db.StreamLedgerRange 16 15 Scenario.collect []) Scenario.warm
  = (([], nil), log (EvQuery (range_query 16 15)) Scenario.warm).
Proof.
  assert (H1 : 15 < 16) by lia.
  assert (H2 : forall e, health (database Scenario.warm) <> Unavailable e)
    by (intros e; discriminate).
  split; [exact H1|]. split; [exact H2|].
  exact (StreamLedgerRange_of_an_empty_range Scenario.collect [] Scenario.warm
           16 15 H1 H2).
Defined.

(** With a sink that never returns an error the loop of a stream goes on
    until a row does not scan or the cursor ends. *)
Lemma stream_rows_until_malformed {S : Type} (f : db.StreamLedgerFn S)
    (pre : list Row) (rest : list Blob) (final : error) :
  (forall closeMeta s, snd (f closeMeta s) = nil) ->
  forallb row_ok pre = true ->
  forall (s : S) (w : World),
  exists s',
    runState (db.stream_rows f (map meta pre ++ rest) final s) w
    = runState (db.stream_rows f rest final s')
               (delivered_to w (map ledger_of pre)).
Proof.
  intros Hf. induction pre as [|r pre IH]; intros Hok s w.
  - exists s. unfold delivered_to. destruct w as [d tr]. cbn. now rewrite app_nil_r.
  - cbn in Hok. apply andb_true_iff in Hok as [Hr Hpre].
    unfold row_ok in Hr.
    destruct (meta r) as [lcm|why] eqn:Em; [|discriminate].
    assert (El : ledger_of r = lcm) by (unfold ledger_of; now rewrite Em).
    cbn [map app db.stream_rows]. rewrite Em, El. cbn [Scan].
    rewrite run_bind. unfold db.call_sink. rewrite run_bind, run_emit, run_ret.
    specialize (Hf lcm s). destruct (f lcm s) as [s1 err]. cbn in Hf. subst err.
    destruct (IH Hpre s1 (log (EvSink lcm) w)) as [s' Hrun].
    exists s'. rewrite Hrun. unfold delivered_to, log. cbn.
    now rewrite <- app_assoc.
Qed.

(** X5. A row whose meta column does not unmarshal ends a stream: with a
    sink that never returns an error, StreamLedgerRange on a healthy driver
    calls the sink on the ledgers before that row in ascending order,
    returns the error of the Scan and calls the sink on no later ledger. *)
Theorem StreamLedgerRange_stops_at_a_malformed_row {S : Type}
    (f : db.StreamLedgerFn S) (s : S) (w : World) (startLedger endLedger : Z)
    (pre post : list Row) (bad : Row) (why : GoError) :
  health (database w) = Healthy ->
  (forall closeMeta s0, snd (f closeMeta s0) = nil) ->
  order_by_sequence (filter (in_range startLedger endLedger)
                            (ledger_close_meta (database w)))
  = (pre ++ bad :: post)%list ->
  forallb row_ok pre = true ->
  meta bad = Malformed why ->
  exists s',
    runState (db.StreamLedgerRange startLedger endLedger f s) w
    = ((s', Some why),
       delivered_to (log (EvQuery (range_query startLedger endLedger)) w)
                    (map ledger_of pre)).
Proof.
  intros Hh Hf Hrows Hpre Hbad. unfold db.StreamLedgerRange.
  fold (range_query startLedger endLedger).
  rewrite run_bind, run_Query, (open_cursor_healthy _ _ Hh).
  cbn [pending Err]. rewrite select_range_rows, Hrows, map_app.
  destruct (stream_rows_until_malformed f pre (map meta (bad :: post)) nil Hf Hpre s
              (log (EvQuery (range_query startLedger endLedger)) w)) as [s' Hrun].
  exists s'. rewrite Hrun. cbn [map db.stream_rows]. rewrite Hbad. reflexivity.
Qed.

(** X6. A cursor that breaks ends a stream with the error of the cursor:
    when the driver loses the cursor after n rows of a longer result, with
    rows as InsertLedger writes them and a sink that never returns an
    error, StreamLedgerRange calls the sink on the first n ledgers of the
    range and returns the error that q.Err() reports. *)
Theorem StreamLedgerRange_reports_a_broken_cursor {S : Type}
    (f : db.StreamLedgerFn S) (s : S) (w : World) (startLedger endLedger : Z)
    (n : nat) (e : GoError) :
  health (database w) = BreaksAfter n e ->
  (forall closeMeta s0, snd (f closeMeta s0) = nil) ->
  forallb row_ok (ledger_close_meta (database w)) = true ->
  let rows := order_by_sequence (filter (in_range startLedger endLedger)
                                        (ledger_close_meta (database w))) in
  (n < List.length rows)%nat ->
  exists s',
    runState (db.StreamLedgerRange startLedger endLedger f s) w
    = ((s', Some e),
       delivered_to (log (EvQuery (range_query startLedger endLedger)) w)
                    (map ledger_of (firstn n rows))).
Proof.
  intros Hh Hf Hok rows Hn. unfold db.StreamLedgerRange.
  fold (range_query startLedger endLedger).
  rewrite run_bind, run_Query. unfold open_cursor.
  rewrite Hh, select_range_rows. fold rows. rewrite length_map.
  apply Nat.ltb_lt in Hn. rewrite Hn. cbn [pending Err].
  assert (Hfirst : forallb row_ok (firstn n rows) = true).
  { apply forallb_forall. intros r Hr.
    assert (Hin : In r rows) by (rewrite <- (firstn_skipn n rows); apply in_or_app; now left).
    pose proof (select_rows_ok _ (range_query startLedger endLedger) Hok) as Hall.
    rewrite select_range_rows in Hall. fold rows in Hall.
    rewrite forallb_forall in Hall. now apply Hall. }
  destruct (stream_rows_until_malformed f (firstn n rows) [] (Some e) Hf Hfirst s
              (log (EvQuery (range_query startLedger endLedger)) w)) as [s' Hrun].
  exists s'. rewrite firstn_map, <- (app_nil_r (map meta (firstn n rows))), Hrun.
  reflexivity.
Qed.

Lemma StreamLedgerRange_reports_a_broken_cursor_witness :
  exists s',
    runState (db.StreamLedgerRange 12 15 Scenario.collect [])
             (breaking 2 (ErrorString "connection lost") Scenario.warm)
    = ((s', Some (ErrorString "connection lost")),
       delivered_to
         (log (EvQuery (range_query 12 15))
              (breaking 2 (ErrorString "connection lost") Scenario.warm))
         (map Scenario.ledger [12; 13])).
Proof.
  apply (StreamLedgerRange_reports_a_broken_cursor Scenario.collect []
           (breaking 2 (ErrorString "connection lost") Scenario.warm) 12 15
           2 (ErrorString "connection lost") eq_refl).
  - reflexivity.
  - reflexivity.
  - cbn. lia.
Defined.

Lemma StreamLedgerRange_stops_at_a_malformed_row_witness :
  exists s',
    runState (db.StreamLedgerRange 12 15 Scenario.collect []) Scenario.damaged
    = ((s', Some (ErrorString "xdr: decoding failed")),
       delivered_to (log (EvQuery (range_query 12 15)) Scenario.damaged)
                    (map Scenario.ledger [12; 13])).
Proof.
  apply (StreamLedgerRange_stops_at_a_malformed_row Scenario.collect []
           Scenario.damaged 12 15
           [row_of (Scenario.ledger 12); row_of (Scenario.ledger 13)]
           [row_of (Scenario.ledger 15)]
           {| sequence := 14; meta := Malformed (ErrorString "xdr: decoding failed") |}
           (ErrorString "xdr: decoding failed") eq_refl);
    reflexivity.
Defined.

(* ================================================================== *)
(** ** The cold path of GetLedgerRange *)

Lemma fold_max_ge (l : list Row) (a : Z) :
  a <= fold_left (fun m x => Z.max m (sequence x)) l a /\
  (forall r, In r l -> sequence r <= fold_left (fun m x => Z.max m (sequence x)) l a) /\
  (fold_left (fun m x => Z.max m (sequence x)) l a = a \/
   exists r, In r l /\ fold_left (fun m x => Z.max m (sequence x)) l a = sequence r).
Proof.
  revert a. induction l as [|x l IH]; cbn; intros a.
  - repeat split; [lia | tauto | now left].
  - destruct (IH (Z.max a (sequence x))) as (H1 & H2 & H3).
    repeat split.
    + lia.
    + intros r [<-|Hr]; [lia | auto].
    + destruct H3 as [H3|(r & Hr & H3)].
      * destruct (Z.max_spec a (sequence x)) as [[_ E]|[_ E]].
        -- right. exists x. split; [now left | now rewrite H3].
        -- left. now rewrite H3.
      * right. exists r. split; [now right | exact H3].
Qed.

Lemma max_sequence_spec (t : list Row) (m : Z) :
  max_sequence t = Some m ->
  (exists r, In r t /\ sequence r = m) /\
  (forall r, In r t -> sequence r <= m).
Proof.
  destruct t as [|r0 t]; cbn; intros H; [discriminate|].
  inversion H as [Hm]; clear H.
  destruct (fold_max_ge t (sequence r0)) as (H1 & H2 & H3).
  split.
  - destruct H3 as [H3|(r & Hr & H3)].
    + exists r0. split; [now left | now rewrite H3].
    + exists r. split; [now right | now rewrite H3].
  - intros r [<-|Hr]; [exact H1 | now apply H2].
Qed.

(** The rows of the statement of the cold path are the rows of the table
    with the least or with the greatest sequence, in ascending order. *)
Lemma oldest_latest_query_rows (t : list Row) (lo hi : Z) :
  min_sequence t = Some lo -> max_sequence t = Some hi ->
  select_rows t db.oldest_latest_query
  = order_by_sequence
      (filter (fun r => (sequence r =? lo) || (sequence r =? hi)) t).
Proof.
  intros Hlo Hhi. unfold select_rows, db.oldest_latest_query; cbn. f_equal.
  apply filter_ext. intros r. unfold matches; cbn. now rewrite Hlo, Hhi, andb_true_r.
Qed.

Lemma last_nonempty_default {A : Type} (l : list A) (x d d' : A) :
  last (x :: l) d = last (x :: l) d'.
Proof.
  revert x. induction l as [|y l IH]; intros x; [reflexivity|].
  change (last (x :: y :: l) d) with (last (y :: l) d).
  change (last (x :: y :: l) d') with (last (y :: l) d').
  apply IH.
Qed.

Lemma seq_le_trans : Relations_1.Transitive seq_le.
Proof. intros a b c. unfold seq_le. lia. Qed.

(** In a list in ascending order the first row has the least sequence and
    the last the greatest. *)
Lemma sorted_first_last (r0 : Row) (rest : list Row) :
  Sorted seq_le (r0 :: rest) ->
  forall r, In r (r0 :: rest) ->
            sequence r0 <= sequence r <= sequence (last (r0 :: rest) r0).
Proof.
  intros Hs. apply (Sorted_StronglySorted seq_le_trans) in Hs.
  revert r0 Hs. induction rest as [|x rest IH]; intros r0 Hs r Hr.
  - destruct Hr as [<-|[]]. cbn. lia.
  - inversion Hs as [|? ? Hrest Hall]; subst.
    change (last (r0 :: x :: rest) r0) with (last (x :: rest) r0).
    assert (Hlast : last (x :: rest) r0 = last (x :: rest) x)
      by apply last_nonempty_default.
    rewrite Hlast.
    pose proof (IH x Hrest) as Hx.
    rewrite Forall_forall in Hall.
    assert (H0x : sequence r0 <= sequence x) by (apply Hall; now left).
    destruct Hr as [<-|Hr].
    + specialize (Hx x (or_introl eq_refl)). lia.
    + specialize (Hx r Hr). lia.
Qed.

Lemma last_of_map {A B : Type} (g : A -> B) (l : list A) (d : A) :
  last (map g l) (g d) = g (last l d).
Proof.
  induction l as [|x l IH]; [reflexivity|].
  destruct l as [|y l]; [reflexivity|]. exact IH.
Qed.

Lemma last_in {A : Type} (l : list A) (x d : A) : In (last (x :: l) d) (x :: l).
Proof.
  revert x. induction l as [|y l IH]; intros x; [now left|].
  right. apply IH.
Qed.

Lemma row_ok_sequence (r : Row) :
  row_ok r = true -> xdr.LedgerSequence (ledger_of r) = sequence r.
Proof.
  unfold row_ok, ledger_of. destruct (meta r); [|discriminate].
  intros H. now apply Z.eqb_eq.
Qed.

(** What the cold path returns on a healthy, non-empty store of rows as
    InsertLedger writes them. *)
Lemma cold_range (ErrEmptyDB : GoError) (w : World) :
  latestLedgerSeq (cache (database w)) = 0 ->
  health (database w) = Healthy ->
  ledger_close_meta (database w) <> [] ->
  forallb row_ok (ledger_close_meta (database w)) = true ->
  exists oldest latest,
    In oldest (ledger_close_meta (database w)) /\
    In latest (ledger_close_meta (database w)) /\
    (forall r, In r (ledger_close_meta (database w)) ->
               sequence oldest <= sequence r <= sequence latest) /\
    runState (db.GetLedgerRange ErrEmptyDB) w
    = (({| FirstLedger := db.info_of (ledger_of oldest);
           LastLedger := db.info_of (ledger_of latest) |}, nil),
       log (EvQuery db.oldest_latest_query) w).
Proof.
  intros Hc Hh Hne Hok. set (t := ledger_close_meta (database w)) in *.
  destruct (min_sequence t) as [lo|] eqn:Hlo; [|destruct t; [congruence|discriminate]].
  destruct (max_sequence t) as [hi|] eqn:Hhi; [|destruct t; [congruence|discriminate]].
  destruct (min_sequence_spec t lo Hlo) as ((rlo & Hrlo & Elo) & Hmin).
  destruct (max_sequence_spec t hi Hhi) as ((rhi & Hrhi & Ehi) & Hmax).
  pose proof (oldest_latest_query_rows t lo hi Hlo Hhi) as Hsel.
  set (hit := filter (fun r => (sequence r =? lo) || (sequence r =? hi)) t) in *.
  assert (Hperm : Permutation (order_by_sequence hit) hit)
    by apply order_by_sequence_perm.
  assert (Hin : forall r, In r (order_by_sequence hit) <->
                          In r t /\ (sequence r = lo \/ sequence r = hi)).
  { intros r. split.
    - intros Hr. apply (Permutation_in _ Hperm) in Hr.
      apply filter_In in Hr as [Hr Hp]. split; [exact Hr|].
      apply orb_true_iff in Hp as [Hp|Hp]; apply Z.eqb_eq in Hp; tauto.
    - intros [Hr Hp]. apply (Permutation_in _ (Permutation_sym Hperm)).
      apply filter_In. split; [exact Hr|]. apply orb_true_iff.
      destruct Hp as [Hp|Hp]; [left|right]; now apply Z.eqb_eq. }
  assert (Hlo_in : In rlo (order_by_sequence hit)) by (apply Hin; tauto).
  assert (Hhi_in : In rhi (order_by_sequence hit)) by (apply Hin; tauto).
  pose proof (order_by_sequence_sorted hit) as Hsorted.
  destruct (order_by_sequence hit) as [|r0 rest] eqn:Hrows; [destruct Hlo_in|].
  pose proof (sorted_first_last r0 rest Hsorted) as Hends.
  assert (H0 : In r0 t) by (apply Hin; now left).
  assert (HL : In (last (r0 :: rest) r0) t) by (apply Hin, last_in).
  exists r0, (last (r0 :: rest) r0).
  split; [exact H0|]. split; [exact HL|]. split.
  - intros r Hr.
    pose proof (Hends rlo Hlo_in). pose proof (Hends rhi Hhi_in).
    pose proof (Hmin r Hr). pose proof (Hmax r Hr).
    pose proof (Hmin r0 H0). pose proof (Hmax _ HL). lia.
  - rewrite (run_GetLedgerRange_cold ErrEmptyDB w Hc).
    rewrite (open_cursor_healthy _ _ Hh). cbn [scan_cursor pending Err].
    fold t. rewrite Hsel.
    rewrite scan_all_ok.
    + cbn [map]. rewrite <- (last_of_map ledger_of (r0 :: rest) r0). reflexivity.
    + rewrite <- Hsel. now apply select_rows_ok.
Qed.

(** X7. With a cached latest sequence of zero, GetLedgerRange on a healthy,
    non-empty store of rows as InsertLedger writes them sends one SELECT and
    returns the range from a stored ledger of least sequence to a stored
    ledger of greatest sequence; the first sequence of the range is not
    above the last. *)
Theorem GetLedgerRange_cold_path (ErrEmptyDB : GoError) (w : World) :
  latestLedgerSeq (cache (database w)) = 0 ->
  health (database w) = Healthy ->
  ledger_close_meta (database w) <> [] ->
  forallb row_ok (ledger_close_meta (database w)) = true ->
  exists storeRange oldest latest,
    runState (db.GetLedgerRange ErrEmptyDB) w
    = ((storeRange, nil), log (EvQuery db.oldest_latest_query) w) /\
    In oldest (ledger_close_meta (database w)) /\
    In latest (ledger_close_meta (database w)) /\
    (forall r, In r (ledger_close_meta (database w)) ->
               sequence oldest <= sequence r <= sequence latest) /\
    FirstLedger storeRange = db.info_of (ledger_of oldest) /\
    LastLedger storeRange = db.info_of (ledger_of latest) /\
    Sequence (FirstLedger storeRange) = sequence oldest /\
    Sequence (LastLedger storeRange) = sequence latest /\
    Sequence (FirstLedger storeRange) <= Sequence (LastLedger storeRange).
Proof.
  intros Hc Hh Hne Hok.
  destruct (cold_range ErrEmptyDB w Hc Hh Hne Hok)
    as (oldest & latest & Ho & Hl & Hends & Hrun).
  exists {| FirstLedger := db.info_of (ledger_of oldest);
            LastLedger := db.info_of (ledger_of latest) |}, oldest, latest.
  rewrite forallb_forall in Hok.
  pose proof (row_ok_sequence oldest (Hok oldest Ho)) as Eo.
  pose proof (row_ok_sequence latest (Hok latest Hl)) as El.
  split; [exact Hrun|]. split; [exact Ho|]. split; [exact Hl|].
  split; [exact Hends|]. split; [reflexivity|]. split; [reflexivity|].
  cbn [FirstLedger LastLedger Sequence db.info_of]. rewrite Eo, El.
  split; [reflexivity|]. split; [reflexivity|].
  specialize (Hends oldest Ho). lia.
Qed.

Lemma GetLedgerRange_cold_path_witness :
  exists storeRange,
    runState (db.GetLedgerRange Scenario.ErrEmptyDB) Scenario.cold
    = ((storeRange, nil), log (EvQuery db.oldest_latest_query) Scenario.cold) /\
    Sequence (FirstLedger storeRange) = 10 /\
    Sequence (LastLedger storeRange) = 20.
Proof.
  destruct (GetLedgerRange_cold_path Scenario.ErrEmptyDB Scenario.cold
              eq_refl eq_refl) as (storeRange & oldest & latest & Hrun & _);
    [discriminate | reflexivity |].
  exists storeRange. split; [exact Hrun|].
  assert (E : runState (db.GetLedgerRange Scenario.ErrEmptyDB) Scenario.cold
              = (({| FirstLedger := {| Sequence := 10; CloseTime := 1700000010 |};
                     LastLedger := {| Sequence := 20; CloseTime := 1700000020 |} |},
                  nil), log (EvQuery db.oldest_latest_query) Scenario.cold))
    by reflexivity.
  rewrite E in Hrun. inversion Hrun. split; reflexivity.
Defined.

(** Under the primary key a sequence names one row. *)
Lemma row_of_sequence_unique (t : list Row) (a b : Row) :
  NoDup (map sequence t) -> In a t -> In b t -> sequence a = sequence b -> a = b.
Proof.
  induction t as [|x t IH]; cbn; intros Hnd Ha Hb Heq; [destruct Ha|].
  inversion Hnd as [|? ? Hx Ht]; subst.
  destruct Ha as [<-|Ha], Hb as [<-|Hb].
  - reflexivity.
  - exfalso. apply Hx. rewrite Heq. now apply in_map.
  - exfalso. apply Hx. rewrite <- Heq. now apply in_map.
  - now apply IH.
Qed.

(** X8. The two paths of GetLedgerRange agree when the cache is coherent:
    on a healthy store of rows as InsertLedger writes them, with one row per
    sequence, whose cache holds the sequence and close time of the stored
    ledger of greatest sequence, the warm path returns the very range the
    cold path returns for the same table. *)
Theorem GetLedgerRange_paths_agree (ErrEmptyDB : GoError) (w : World)
    (newest : Row) :
  health (database w) = Healthy ->
  forallb row_ok (ledger_close_meta (database w)) = true ->
  NoDup (map sequence (ledger_close_meta (database w))) ->
  In newest (ledger_close_meta (database w)) ->
  (forall r, In r (ledger_close_meta (database w)) -> sequence r <= sequence newest) ->
  latestLedgerSeq (cache (database w)) = sequence newest ->
  latestLedgerCloseTime (cache (database w)) = xdr.LedgerCloseTime (ledger_of newest) ->
  sequence newest <> 0 ->
  exists storeRange,
    fst (runState (db.GetLedgerRange ErrEmptyDB) w) = (storeRange, nil) /\
    fst (runState (db.GetLedgerRange ErrEmptyDB)
                  (with_cache {| latestLedgerSeq := 0; latestLedgerCloseTime := 0 |} w))
    = (storeRange, nil) /\
    Sequence (FirstLedger storeRange) <= Sequence (LastLedger storeRange).
Proof.
  intros Hh Hok Hnd Hin Hmax Hseq Htime Hnz.
  set (t := ledger_close_meta (database w)) in *.
  set (w0 := with_cache {| latestLedgerSeq := 0; latestLedgerCloseTime := 0 |} w).
  assert (Hne : t <> []) by (intros E; rewrite E in Hin; destruct Hin).
  destruct (cold_range ErrEmptyDB w0 eq_refl Hh Hne Hok)
    as (oldest & latest & Ho & Hl & Hends & Hcold).
  change (ledger_close_meta (database w0)) with t in *.
  assert (El : latest = newest).
  { apply (row_of_sequence_unique t); try assumption.
    pose proof (Hends newest Hin). pose proof (Hmax latest Hl). lia. }
  subst latest.
  pose proof Hok as Hok'. rewrite forallb_forall in Hok'.
  assert (Hc : latestLedgerSeq (cache (database w)) <> 0) by (rewrite Hseq; exact Hnz).
  exists {| FirstLedger := db.info_of (ledger_of oldest);
            LastLedger := db.info_of (ledger_of newest) |}.
  split; [|split].
  - rewrite (run_GetLedgerRange_warm ErrEmptyDB w Hc).
    rewrite (open_cursor_healthy _ _ Hh). cbn [scan_cursor pending Err fst].
    fold t.
    rewrite (scan_all_ok _ (select_rows_ok t db.oldest_query Hok)).
    assert (Hsel : In oldest (select_rows t db.oldest_query)).
    { apply oldest_query_rows. split; [exact Ho|]. intros r' Hr'. now apply Hends. }
    destruct (select_rows t db.oldest_query) as [|r0 rows] eqn:Hrows;
      [destruct Hsel|].
    assert (Hr0 : In r0 t /\ forall r', In r' t -> sequence r0 <= sequence r').
    { apply oldest_query_rows. rewrite Hrows. now left. }
    assert (E0 : r0 = oldest).
    { apply (row_of_sequence_unique t); try tauto.
      destruct Hr0 as [Hr0 Hmin]. pose proof (Hmin oldest Ho).
      pose proof (Hends r0 Hr0). lia. }
    subst r0. cbn [map]. f_equal. f_equal.
    unfold cached_latest, db.info_of. rewrite Hseq, Htime.
    now rewrite (row_ok_sequence newest (Hok' newest Hin)).
  - now rewrite Hcold.
  - cbn. rewrite (row_ok_sequence oldest (Hok' oldest Ho)),
                 (row_ok_sequence newest (Hok' newest Hin)).
    specialize (Hends oldest Ho). lia.
Qed.

Lemma GetLedgerRange_paths_agree_witness :
  fst (runState (db.GetLedgerRange Scenario.ErrEmptyDB) Scenario.warm)
  = fst (runState (db.GetLedgerRange Scenario.ErrEmptyDB)
           (with_cache {| latestLedgerSeq := 0; latestLedgerCloseTime := 0 |}
                       Scenario.warm)).
Proof.
  destruct (GetLedgerRange_paths_agree Scenario.ErrEmptyDB Scenario.warm
              (row_of (Scenario.ledger 20)) eq_refl eq_refl)
    as (storeRange & Hwarm & Hcold & _).
  - cbn. repeat constructor; cbn; intuition discriminate.
  - cbn. tauto.
  - intros r Hr. cbn in Hr.
    repeat (destruct Hr as [<-|Hr]; [cbn; lia|]). destruct Hr.
  - reflexivity.
  - reflexivity.
  - cbn. lia.
  - rewrite Hwarm, Hcold. reflexivity.
Defined.

(* ================================================================== *)
(** ** GetLedger, InsertLedger and trimLedgers together *)

Lemma filter_sequence_unique (t : list Row) (r : Row) :
  NoDup (map sequence t) -> In r t ->
  filter (fun x => sequence x =? sequence r) t = [r].
Proof.
  induction t as [|x t IH]; cbn; intros Hnd Hin; [destruct Hin|].
  inversion Hnd as [|? ? Hx Ht]; subst.
  destruct Hin as [->|Hin].
  - rewrite Z.eqb_refl. f_equal. apply filter_none.
    intros y Hy. apply Z.eqb_neq. intros E. apply Hx. rewrite <- E. now apply in_map.
  - destruct (Z.eqb_spec (sequence x) (sequence r)) as [E|E].
    + exfalso. apply Hx. rewrite E. now apply in_map.
    + now apply IH.
Qed.

(** X9. Under the primary key GetLedger is a lookup: on a healthy store of
    rows as InsertLedger writes them, with one row per sequence, it returns
    the stored ledger and found = true for the sequence of every row, the
    zero ledger and found = false for every other sequence, and never an
    error. *)
Theorem GetLedger_under_the_primary_key (w : World) :
  health (database w) = Healthy ->
  forallb row_ok (ledger_close_meta (database w)) = true ->
  NoDup (map sequence (ledger_close_meta (database w))) ->
  (forall r, In r (ledger_close_meta (database w)) ->
     fst (runState (db.GetLedger (sequence r)) w) = (ledger_of r, true, nil) /\
     xdr.LedgerSequence (ledger_of r) = sequence r) /\
  (forall seq, (forall r, In r (ledger_close_meta (database w)) -> sequence r <> seq) ->
     fst (runState (db.GetLedger seq) w) = (xdr.zero, false, nil)) /\
  (forall seq, snd (fst (runState (db.GetLedger seq) w)) = nil).
Proof.
  intros Hh Hok Hnd. set (t := ledger_close_meta (database w)) in *.
  pose proof Hok as Hok'. rewrite forallb_forall in Hok'.
  assert (Hfound : forall r, In r t ->
            fst (runState (db.GetLedger (sequence r)) w) = (ledger_of r, true, nil)).
  { intros r Hr. rewrite (run_GetLedger w _ Hh). fold t.
    rewrite (filter_sequence_unique t r Hnd Hr). cbn [map scan_all].
    specialize (Hok' r Hr). unfold row_ok in Hok'. unfold ledger_of.
    destruct (meta r); [reflexivity | discriminate]. }
  assert (Hmissing : forall seq, (forall r, In r t -> sequence r <> seq) ->
            fst (runState (db.GetLedger seq) w) = (xdr.zero, false, nil)).
  { intros seq Hnone. rewrite (run_GetLedger w _ Hh). fold t.
    rewrite filter_none; [reflexivity|].
    intros r Hr. apply Z.eqb_neq. now apply Hnone. }
  split; [|split].
  - intros r Hr. split; [now apply Hfound | now apply row_ok_sequence, Hok'].
  - exact Hmissing.
  - intros seq.
    destruct (filter (fun r => sequence r =? seq) t) as [|r rest] eqn:Hf.
    + rewrite Hmissing; [reflexivity|].
      intros r Hr E.
      assert (Hin : In r (filter (fun r => sequence r =? seq) t))
        by (apply filter_In; split; [exact Hr | now apply Z.eqb_eq]).
      rewrite Hf in Hin. destruct Hin.
    + assert (Hin : In r (filter (fun r => sequence r =? seq) t))
        by (rewrite Hf; now left).
      apply filter_In in Hin as [Hr E]. apply Z.eqb_eq in E. subst seq.
      now rewrite (Hfound r Hr).
Qed.

Lemma GetLedger_under_the_primary_key_witness :
  fst (runState (db.GetLedger 15) Scenario.warm) = (Scenario.ledger 15, true, nil) /\
  fst (runState (db.GetLedger 21) Scenario.warm) = (xdr.zero, false, nil).
Proof.
  assert (Hnd : NoDup (map sequence (ledger_close_meta (database Scenario.warm))))
    by (cbn; repeat constructor; cbn; intuition discriminate).
  destruct (GetLedger_under_the_primary_key Scenario.warm eq_refl eq_refl Hnd)
    as (Hfound & Hmissing & _).
  split.
  - apply (proj1 (Hfound (row_of (Scenario.ledger 15))
                    ltac:(cbn; tauto))).
  - apply Hmissing. intros r Hr. cbn in Hr.
    repeat (destruct Hr as [<-|Hr]; [cbn; lia|]). destruct Hr.
Defined.

(** The table after an INSERT the driver accepts. *)
Lemma run_InsertLedger (conflict : GoError) (ledger : xdr.LedgerCloseMeta)
    (w : World) :
  (forall e, health (database w) <> Unavailable e) ->
  (forall r, In r (ledger_close_meta (database w)) ->
             sequence r <> xdr.LedgerSequence ledger) ->
  runState (db.InsertLedger conflict ledger) w
  = (nil, {| database :=
               {| ledger_close_meta :=
                    ledger_close_meta (database w) ++ [row_of ledger];
                  cache := cache (database w);
                  health := health (database w) |};
             trace := trace w |}).
Proof.
  intros Hh Hnew. unfold db.InsertLedger, ExecInsert.
  rewrite run_bind. cbn [runState get MonadState_state].
  unfold run_insert. cbn [ValuesSequence ValuesMeta].
  assert (Hex : existsb (fun r => sequence r =? xdr.LedgerSequence ledger)
                        (ledger_close_meta (database w)) = false).
  { destruct (existsb _ _) eqn:E; [|reflexivity].
    apply existsb_exists in E as (r & Hr & Heq). apply Z.eqb_eq in Heq.
    now destruct (Hnew r Hr). }
  rewrite Hex.
  destruct (health (database w)) as [|e|n e]; try reflexivity.
  now destruct (Hh e).
Qed.

(** X10. InsertLedger and GetLedger round trip: after InsertLedger of a
    ledger whose sequence the table does not hold, on a healthy driver,
    GetLedger of that sequence returns this ledger with found = true, and
    GetLedger of any other sequence returns what it returned before. *)
Theorem InsertLedger_then_GetLedger (conflict : GoError)
    (ledger : xdr.LedgerCloseMeta) (w : World) :
  health (database w) = Healthy ->
  (forall r, In r (ledger_close_meta (database w)) ->
             sequence r <> xdr.LedgerSequence ledger) ->
  let '(err, w') := runState (db.InsertLedger conflict ledger) w in
  err = nil /\
  fst (runState (db.GetLedger (xdr.LedgerSequence ledger)) w') = (ledger, true, nil) /\
  (forall seq, seq <> xdr.LedgerSequence ledger ->
     fst (runState (db.GetLedger seq) w') = fst (runState (db.GetLedger seq) w)).
Proof.
  intros Hh Hnew.
  rewrite run_InsertLedger;
    [|intros e; rewrite Hh; discriminate | exact Hnew].
  split; [reflexivity|]. split.
  - rewrite run_GetLedger by exact Hh. cbn [database ledger_close_meta].
    rewrite filter_app, filter_none.
    + cbn. now rewrite Z.eqb_refl.
    + intros r Hr. apply Z.eqb_neq. now apply Hnew.
  - intros seq Hseq. rewrite !run_GetLedger by exact Hh.
    cbn [database ledger_close_meta]. rewrite filter_app. cbn [filter row_of sequence].
    apply Z.eqb_neq in Hseq. rewrite Z.eqb_sym in Hseq. rewrite Hseq.
    now rewrite app_nil_r.
Qed.

Lemma InsertLedger_then_GetLedger_witness :
  fst (runState (db.GetLedger 21)
         (snd (runState (db.InsertLedger (ErrorString "UNIQUE constraint failed")
                           (Scenario.ledger 21)) Scenario.warm)))
  = (Scenario.ledger 21, true, nil).
Proof.
  assert (Hnew : forall r, In r (ledger_close_meta (database Scenario.warm)) ->
                           sequence r <> xdr.LedgerSequence (Scenario.ledger 21)).
  { intros r Hr. cbn in Hr.
    repeat (destruct Hr as [<-|Hr]; [cbn; lia|]). destruct Hr. }
  pose proof (InsertLedger_then_GetLedger (ErrorString "UNIQUE constraint failed")
                (Scenario.ledger 21) Scenario.warm eq_refl Hnew) as H.
  destruct (runState (db.InsertLedger (ErrorString "UNIQUE constraint failed")
                        (Scenario.ledger 21)) Scenario.warm) as [err w'].
  exact (proj1 (proj2 H)).
Defined.

(** The table trimLedgers leaves, when the driver accepts the DELETE and the
    stored sequences are uint32: the rows not below the cutoff, on either
    branch. *)
Lemma table_after_trimLedgers (w : World) (L W : Z) :
  0 <= W ->
  (forall e, health (database w) <> Unavailable e) ->
  (forall r, In r (ledger_close_meta (database w)) -> 0 <= sequence r) ->
  let '(err, w') := runState (db.trimLedgers L W) w in
  err = nil /\
  ledger_close_meta (database w')
  = filter (fun r => u32 (L + 1) - W <=? sequence r) (ledger_close_meta (database w)) /\
  cache (database w') = cache (database w) /\
  health (database w') = health (database w).
Proof.
  intros HW Hh Hpos. unfold db.trimLedgers.
  pose proof (u32_range (L + 1)) as HL.
  destruct (Z.leb_spec (u32 (L + 1)) W) as [Hle|Hgt].
  - cbn. split; [reflexivity|]. split; [|split; reflexivity].
    symmetry. apply filter_all. intros r Hr. specialize (Hpos r Hr).
    apply Z.leb_le. lia.
  - rewrite run_Exec.
    rewrite (u32_small (u32 (L + 1) - W)) by lia.
    unfold run_delete, delete_rows. cbn [DeleteWhere].
    assert (Hf : filter (fun r => negb (matches (ledger_close_meta (database w))
                                          [Lt (u32 (L + 1) - W)] r))
                        (ledger_close_meta (database w))
                 = filter (fun r => u32 (L + 1) - W <=? sequence r)
                          (ledger_close_meta (database w))).
    { apply filter_ext. intros r. rewrite matches_lt.
      destruct (Z.ltb_spec (sequence r) (u32 (L + 1) - W)),
               (Z.leb_spec (u32 (L + 1) - W) (sequence r)); try reflexivity; lia. }
    rewrite Hf.
    destruct (health (database w)) as [|e|n e]; cbn;
      try (repeat split; reflexivity).
    now destruct (Hh e).
Qed.

Lemma NoDup_map_filter {A B : Type} (g : A -> B) (p : A -> bool) (l : list A) :
  NoDup (map g l) -> NoDup (map g (filter p l)).
Proof.
  induction l as [|x l IH]; cbn; intros H; [constructor|].
  inversion H as [|? ? Hx Hl]; subst.
  destruct (p x); cbn; [|now apply IH].
  constructor; [|now apply IH].
  intros Hin. apply Hx. apply in_map_iff in Hin as (y & Ey & Hy).
  apply filter_In in Hy as [Hy _]. rewrite <- Ey. now apply in_map.
Qed.

(** Distinct integers between a and b are at most b - a + 1. *)
Lemma NoDup_Z_interval (l : list Z) (a b : Z) :
  NoDup l -> (forall x, In x l -> a <= x <= b) ->
  Z.of_nat (List.length l) <= Z.max 0 (b - a + 1).
Proof.
  intros Hnd Hin.
  set (all := map (fun i => a + Z.of_nat i) (seq 0 (Z.to_nat (b - a + 1)))).
  assert (Hincl : incl l all).
  { intros x Hx. specialize (Hin x Hx). unfold all. apply in_map_iff.
    exists (Z.to_nat (x - a)). split; [lia|]. apply in_seq. lia. }
  pose proof (NoDup_incl_length Hnd Hincl) as Hlen.
  unfold all in Hlen. rewrite length_map, length_seq in Hlen. lia.
Qed.

(** X11. trimLedgers bounds the store: with one row per sequence, stored
    sequences that are uint32 and not above the latest sequence L, below the
    largest uint32, and a driver that accepts the DELETE, at most W rows
    remain after trimLedgers(L, W), all with a sequence in
    [L + 1 - W, L], and every row with such a sequence remains. *)
Theorem trimLedgers_bounds_the_store (w : World) (L W : Z) :
  0 <= W ->
  0 <= L < 2 ^ 32 - 1 ->
  (forall e, health (database w) <> Unavailable e) ->
  NoDup (map sequence (ledger_close_meta (database w))) ->
  (forall r, In r (ledger_close_meta (database w)) -> 0 <= sequence r <= L) ->
  let t' := ledger_close_meta (database (snd (runState (db.trimLedgers L W) w))) in
  Z.of_nat (List.length t') <= W /\
  (forall r, In r t' <->
             In r (ledger_close_meta (database w)) /\ L + 1 - W <= sequence r <= L).
Proof.
  intros HW HL Hh Hnd Hrange t'.
  pose proof (table_after_trimLedgers w L W HW Hh
                (fun r Hr => proj1 (Hrange r Hr))) as H.
  unfold t'. destruct (runState (db.trimLedgers L W) w) as [err w'].
  destruct H as (_ & Ht & _). cbn [snd]. rewrite Ht.
  rewrite (u32_small (L + 1)) by lia.
  assert (Hmem : forall r,
            In r (filter (fun r => L + 1 - W <=? sequence r)
                         (ledger_close_meta (database w))) <->
            In r (ledger_close_meta (database w)) /\ L + 1 - W <= sequence r <= L).
  { intros r. rewrite filter_In, Z.leb_le. split.
    - intros [Hr Hc]. specialize (Hrange r Hr). split; [exact Hr | lia].
    - intros [Hr Hc]. split; [exact Hr | lia]. }
  split; [|exact Hmem].
  rewrite <- (length_map sequence).
  pose proof (NoDup_Z_interval
                (map sequence (filter (fun r => L + 1 - W <=? sequence r)
                                      (ledger_close_meta (database w))))
                (L + 1 - W) L) as Hbound.
  assert (Hmax : Z.max 0 (L - (L + 1 - W) + 1) = W) by lia.
  rewrite Hmax in Hbound. apply Hbound.
  - now apply NoDup_map_filter.
  - intros x Hx. apply in_map_iff in Hx as (r & <- & Hr). now apply Hmem.
Qed.

Lemma trimLedgers_bounds_the_store_witness :
  Z.of_nat (List.length
    (ledger_close_meta (database (snd (runState (db.trimLedgers 20 3) Scenario.warm)))))
  <= 3.
Proof.
  assert (HW : 0 <= 3) by lia.
  assert (HL : 0 <= 20 < 2 ^ 32 - 1) by lia.
  assert (Hh : forall e, health (database Scenario.warm) <> Unavailable e)
    by (intros e; discriminate).
  assert (Hnd : NoDup (map sequence (ledger_close_meta (database Scenario.warm))))
    by (cbn; repeat constructor; cbn; intuition discriminate).
  assert (Hr : forall r, In r (ledger_close_meta (database Scenario.warm)) ->
                         0 <= sequence r <= 20).
  { intros r Hr. cbn in Hr.
    repeat (destruct Hr as [<-|Hr]; [cbn; lia|]). destruct Hr. }
  exact (proj1 (trimLedgers_bounds_the_store Scenario.warm 20 3 HW HL Hh Hnd Hr)).
Defined.

(** X12. Trims compose: with stored sequences that are uint32 and a driver
    that accepts the DELETEs, trimming to a window W1 and then to a window
    W2 for one latest sequence leaves the table that one trim to the smaller
    of the two windows leaves; in particular a second trim to the same
    window changes nothing. *)
Theorem trimLedgers_twice (w : World) (L W1 W2 : Z) :
  0 <= W1 -> 0 <= W2 ->
  (forall e, health (database w) <> Unavailable e) ->
  (forall r, In r (ledger_close_meta (database w)) -> 0 <= sequence r) ->
  let w1 := snd (runState (db.trimLedgers L W1) w) in
  ledger_close_meta (database (snd (runState (db.trimLedgers L W2) w1)))
  = ledger_close_meta (database (snd (runState (db.trimLedgers L (Z.min W1 W2)) w))).
Proof.
  intros H1 H2 Hh Hpos w1.
  pose proof (table_after_trimLedgers w L W1 H1 Hh Hpos) as Ha.
  pose proof (table_after_trimLedgers w L (Z.min W1 W2) ltac:(lia) Hh Hpos) as Hm.
  unfold w1. destruct (runState (db.trimLedgers L W1) w) as [e1 wa].
  destruct (runState (db.trimLedgers L (Z.min W1 W2)) w) as [em wm].
  destruct Ha as (_ & Hta & _ & Hha). destruct Hm as (_ & Htm & _).
  cbn [snd].
  assert (Hh' : forall e, health (database wa) <> Unavailable e)
    by (intros e; rewrite Hha; apply Hh).
  assert (Hpos' : forall r, In r (ledger_close_meta (database wa)) -> 0 <= sequence r).
  { intros r Hr. rewrite Hta in Hr. apply filter_In in Hr as [Hr _]. now apply Hpos. }
  pose proof (table_after_trimLedgers wa L W2 H2 Hh' Hpos') as Hb.
  destruct (runState (db.trimLedgers L W2) wa) as [e2 wb].
  destruct Hb as (_ & Htb & _). cbn [snd]. rewrite Htb, Hta, Htm.
  clear. induction (ledger_close_meta (database w)) as [|r t IH]; [reflexivity|].
  cbn [filter].
  destruct (Z.leb_spec (u32 (L + 1) - W1) (sequence r));
    destruct (Z.leb_spec (u32 (L + 1) - Z.min W1 W2) (sequence r));
    cbn [filter];
    destruct (Z.leb_spec (u32 (L + 1) - W2) (sequence r));
    try (rewrite IH; reflexivity); try (exact IH); lia.
Qed.

Lemma trimLedgers_twice_witness :
  map sequence
    (ledger_close_meta
       (database (snd (runState (db.trimLedgers 20 3)
                         (snd (runState (db.trimLedgers 20 5) Scenario.warm))))))
  = [18; 19; 20].
Proof.
  rewrite (trimLedgers_twice Scenario.warm 20 5 3).
  - reflexivity.
  - lia.
  - lia.
  - intros e; discriminate.
  - intros r Hr. cbn in Hr.
    repeat (destruct Hr as [<-|Hr]; [cbn; lia|]). destruct Hr.
Defined.

(** X13. InsertLedger of a new latest ledger followed by trimLedgers for
    its sequence L, below the largest uint32, on a healthy driver and a
    table of uint32 sequences that does not hold L: both succeed, the rows
    left are the old and the new rows with a sequence not below L + 1 - W,
    and GetLedger(L) returns the new ledger when W is at least 1; with a
    window of 0 the ledger just inserted is deleted again and GetLedger(L)
    finds nothing. *)
Theorem InsertLedger_then_trimLedgers (conflict : GoError)
    (ledger : xdr.LedgerCloseMeta) (W : Z) (w : World) :
  let L := xdr.LedgerSequence ledger in
  0 <= W ->
  0 <= L < 2 ^ 32 - 1 ->
  health (database w) = Healthy ->
  (forall r, In r (ledger_close_meta (database w)) ->
             0 <= sequence r /\ sequence r <> L) ->
  let '(err1, w1) := runState (db.InsertLedger conflict ledger) w in
  let '(err2, w2) := runState (db.trimLedgers L W) w1 in
  err1 = nil /\ err2 = nil /\
  (forall r, In r (ledger_close_meta (database w2)) <->
             (In r (ledger_close_meta (database w)) \/ r = row_of ledger) /\
             L + 1 - W <= sequence r) /\
  (1 <= W -> fst (runState (db.GetLedger L) w2) = (ledger, true, nil)) /\
  (W = 0 -> fst (runState (db.GetLedger L) w2) = (xdr.zero, false, nil)).
Proof.
  intros L HW HL Hh Hold.
  assert (Hnr : forall e, health (database w) <> Unavailable e)
    by (intros e; rewrite Hh; discriminate).
  rewrite run_InsertLedger; [|exact Hnr | intros r Hr; apply (Hold r Hr)].
  set (w1 := {| database := _; trace := _ |}).
  assert (Hpos1 : forall r, In r (ledger_close_meta (database w1)) -> 0 <= sequence r).
  { intros r Hr. cbn in Hr. apply in_app_iff in Hr as [Hr|[<-|[]]].
    - apply (Hold r Hr).
    - cbn. fold L. lia. }
  pose proof (table_after_trimLedgers w1 L W HW Hnr Hpos1) as Ht.
  destruct (runState (db.trimLedgers L W) w1) as [err2 w2].
  destruct Ht as (He & Ht & _ & Hh2).
  rewrite (u32_small (L + 1)) in Ht by lia.
  change (ledger_close_meta (database w1))
    with (ledger_close_meta (database w) ++ [row_of ledger])%list in Ht.
  assert (Hh2' : health (database w2) = Healthy) by (rewrite Hh2; exact Hh).
  assert (Hget : fst (runState (db.GetLedger L) w2)
                 = if 1 <=? W then (ledger, true, nil) else (xdr.zero, false, nil)).
  { rewrite (run_GetLedger w2 L Hh2'), Ht, !filter_app.
    rewrite (filter_none (fun r => sequence r =? L)).
    - cbn [filter row_of sequence app]. fold L.
      destruct (Z.leb_spec (L + 1 - W) L), (Z.leb_spec 1 W); try lia.
      + cbn. now rewrite Z.eqb_refl.
      + reflexivity.
    - intros r Hr. apply filter_In in Hr as [Hr _]. apply Z.eqb_neq.
      apply (Hold r Hr). }
  split; [reflexivity|]. split; [exact He|]. split; [|split].
  - intros r. rewrite Ht, filter_In, in_app_iff, Z.leb_le. cbn [In].
    intuition auto.
  - intros H1. rewrite Hget. apply Z.leb_le in H1. now rewrite H1.
  - intros ->. now rewrite Hget.
Qed.

Lemma InsertLedger_then_trimLedgers_witness :
  let w2 := snd (runState (db.trimLedgers 21 3)
                   (snd (runState (db.InsertLedger (ErrorString "UNIQUE constraint failed")
                                     (Scenario.ledger 21)) Scenario.warm))) in
  fst (runState (db.GetLedger 21) w2) = (Scenario.ledger 21, true, nil).
Proof.
  assert (Hold : forall r, In r (ledger_close_meta (database Scenario.warm)) ->
                   0 <= sequence r /\ sequence r <> xdr.LedgerSequence (Scenario.ledger 21)).
  { intros r Hr. cbn in Hr.
    repeat (destruct Hr as [<-|Hr]; [cbn; lia|]). destruct Hr. }
  pose proof (InsertLedger_then_trimLedgers (ErrorString "UNIQUE constraint failed")
                (Scenario.ledger 21) 3 Scenario.warm ltac:(lia) ltac:(cbn; lia)
                eq_refl Hold) as H.
  cbv zeta in H |- *.
  change (xdr.LedgerSequence (Scenario.ledger 21)) with 21 in H.
  destruct (runState (db.InsertLedger (ErrorString "UNIQUE constraint failed")
                        (Scenario.ledger 21)) Scenario.warm) as [err1 w1].
  cbn [snd].
  destruct (runState (db.trimLedgers 21 3) w1) as [err2 w2].
  destruct H as (_ & _ & _ & H & _). apply H. lia.
Defined.

(* ================================================================== *)
(** ** Further properties of GetTransaction *)

(** What render returns: a response with the status SUCCESS or FAILED, or
    the response it was given with an internal error. *)
Lemma render_result (env : methods.Declared)
    (request : methods.GetTransactionRequest)
    (response : methods.GetTransactionResponse) (tx : db.Transaction) :
  match methods.render env request response tx with
  | (r, None) =>
      methods.Status r = methods.TransactionStatusSuccess \/
      methods.Status r = methods.TransactionStatusFailed
  | (r, Some err) =>
      r = response /\ exists msg, err = JrpcError jrpc2.InternalError msg
  end.
Proof.
  unfold methods.render.
  destruct (String.eqb _ _).
  - destruct (methods.transactionToJSON env tx) as [[[result envelope] meta] [e|]].
    + split; [reflexivity | eexists; reflexivity].
    + destruct (methods.jsonifySlice env (db.Events tx)) as [diagEvents [e|]].
      * split; [reflexivity | eexists; reflexivity].
      * cbn. destruct (db.Successful tx); [now left | now right].
  - cbn. destruct (db.Successful tx); [now left | now right].
Qed.

(** X14. The error of GetTransaction tells whose fault it is.  Without an
    error the response has one of the three statuses.  An error is a
    jrpc2 error and comes with an empty status: InvalidParams (-32602)
    exactly when the format is refused or the hash is not 64 hex digits,
    and then with the zero response and nothing sent or called; and
    InternalError (-32603) in every other case. *)
Theorem GetTransaction_error_codes (env : methods.Declared)
    (reader : db.TransactionReader) (ledgerReader : db.LedgerReader)
    (request : methods.GetTransactionRequest) (w : World) :
  let malformed :=
    methods.IsValidFormat env (methods.Format request) <> nil \/
    well_formed_hash (methods.Hash request) = false in
  let '((response, err), w') :=
    runState (methods.GetTransaction env reader ledgerReader request) w in
  match err with
  | None =>
      ~ malformed /\
      (methods.Status response = methods.TransactionStatusNotFound \/
       methods.Status response = methods.TransactionStatusSuccess \/
       methods.Status response = methods.TransactionStatusFailed)
  | Some (JrpcError code msg) =>
      methods.Status response = "" /\
      ((code = -32602 /\ malformed /\ response = methods.zero /\ w' = w) \/
       (code = -32603 /\ ~ malformed))
  | Some _ => False
  end.
Proof.
  intros malformed. subst malformed.
  destruct (methods.IsValidFormat env (methods.Format request)) as [e|] eqn:Hfmt.
  - unfold methods.GetTransaction. rewrite Hfmt. cbn.
    split; [reflexivity|]. left. repeat split. left. discriminate.
  - destruct (well_formed_hash (methods.Hash request)) eqn:Hwf.
    + assert (Hgood : ~ (@None GoError <> None \/ true = false))
        by (intros [H|H]; [now apply H | discriminate]).
      rewrite (run_GetTransaction_parsed env reader ledgerReader request w Hfmt Hwf).
      destruct (runState (db.LedgerReader_GetLedgerRange ledgerReader) w)
        as [[storeRange [e|]] w1].
      * split; [reflexivity|]. right. now split.
      * cbv zeta.
        destruct (runState _ (log _ w1)) as [[tx err] w2].
        destruct (errors.Is err (methods.ErrNoTransaction env)).
        -- split; [exact Hgood | now left].
        -- destruct err as [e|].
           ++ split; [reflexivity|]. right. now split.
           ++ pose proof (render_result env request
                  (methods.set_placement (methods.set_range methods.zero storeRange) tx)
                  tx) as Hr.
              destruct (methods.render env request _ tx) as [r [rerr|]].
              ** destruct Hr as [-> [msg ->]]. split; [reflexivity|].
                 right. now split.
              ** split; [exact Hgood | now right].
    + destruct (run_GetTransaction_malformed env reader ledgerReader request w Hwf)
        as [msg Hm].
      rewrite Hm. split; [reflexivity|]. left. repeat split. now right.
Qed.

(** X15. A NOT_FOUND response carries the status and the ledger range and
    nothing else: every field that is written only when it is not empty
    (applicationOrder, feeBump, the envelope, result and meta fields,
    ledger, createdAt, the diagnostic events) is empty. *)
Theorem GetTransaction_not_found_has_no_transaction_fields
    (env : methods.Declared) (reader : db.TransactionReader)
    (ledgerReader : db.LedgerReader) (request : methods.GetTransactionRequest)
    (w w' : World) (response : methods.GetTransactionResponse) :
  runState (methods.GetTransaction env reader ledgerReader request) w
  = ((response, nil), w') ->
  methods.Status response = methods.TransactionStatusNotFound ->
  no_transaction_fields response.
Proof.
  intros Hrun Hstatus.
  destruct (GetTransaction_nil_parsed env reader ledgerReader request w w' response Hrun)
    as [Hfmt Hwf].
  rewrite (run_GetTransaction_parsed env reader ledgerReader request w Hfmt Hwf) in Hrun.
  destruct (runState (db.LedgerReader_GetLedgerRange ledgerReader) w)
    as [[storeRange [e|]] w1]; [discriminate|].
  cbv zeta in Hrun.
  destruct (runState _ (log _ w1)) as [[tx err] w2].
  destruct (errors.Is err (methods.ErrNoTransaction env)).
  - inversion Hrun; subst. unfold no_transaction_fields. cbn. repeat split.
  - destruct err as [e|]; [discriminate|].
    pose proof (render_result env request
        (methods.set_placement (methods.set_range methods.zero storeRange) tx) tx) as Hr.
    injection Hrun as Hren _. rewrite Hren, Hstatus in Hr.
    destruct Hr as [Hr|Hr]; discriminate.
Qed.

Lemma GetTransaction_not_found_has_no_transaction_fields_witness :
  exists response w',
    runState (methods.GetTransaction Scenario.declared Scenario.reader
                (db.NewLedgerReader Scenario.ErrEmptyDB)
                (Scenario.request Scenario.hash_BB)) Scenario.warm
    = ((response, nil), w') /\
    methods.Status response = methods.TransactionStatusNotFound /\
    no_transaction_fields response.
Proof.
  eexists. eexists. split; [reflexivity|]. split; [reflexivity|].
  apply (GetTransaction_not_found_has_no_transaction_fields
           Scenario.declared Scenario.reader
           (db.NewLedgerReader Scenario.ErrEmptyDB)
           (Scenario.request Scenario.hash_BB) Scenario.warm _ _ eq_refl eq_refl).
Defined.

(** X16. The blobs of a found transaction come in one encoding.  The
    response has applicationOrder, feeBump, ledger and createdAt of the
    transaction; in a format other than JSON the envelope, result and meta
    are the base64 of the transaction's bytes and the JSON fields are
    empty; in the JSON format, when the conversions succeed, the JSON
    fields are what the conversions return and the XDR fields are empty. *)
Theorem GetTransaction_found_fields (env : methods.Declared)
    (reader : db.TransactionReader) (ledgerReader : db.LedgerReader)
    (request : methods.GetTransactionRequest) (w w1 w2 : World)
    (storeRange : LedgerRange) (tx : db.Transaction) :
  methods.IsValidFormat env (methods.Format request) = nil ->
  well_formed_hash (methods.Hash request) = true ->
  runState (db.LedgerReader_GetLedgerRange ledgerReader) w
  = ((storeRange, nil), w1) ->
  runState (db.TransactionReader_GetTransaction reader
              (decode_hash (methods.Hash request)))
           (log (EvGetTransaction (decode_hash (methods.Hash request))) w1)
  = ((tx, nil), w2) ->
  let response :=
    fst (fst (runState (methods.GetTransaction env reader ledgerReader request) w)) in
  methods.ApplicationOrder response = db.ApplicationOrder tx /\
  methods.FeeBump response = db.FeeBump tx /\
  methods.Ledger response = Sequence (db.Ledger tx) /\
  methods.LedgerCloseTime response = CloseTime (db.Ledger tx) /\
  (String.eqb (methods.Format request) (methods.FormatJSON env) = false ->
   methods.EnvelopeXDR response = base64.EncodeToString (db.Envelope tx) /\
   methods.ResultXDR response = base64.EncodeToString (db.Result tx) /\
   methods.ResultMetaXDR response = base64.EncodeToString (db.Meta tx) /\
   methods.EnvelopeJSON response = "" /\ methods.ResultJSON response = "" /\
   methods.ResultMetaJSON response = "" /\
   methods.DiagnosticEventsJSON response = []) /\
  (forall result envelope meta diagEvents,
   String.eqb (methods.Format request) (methods.FormatJSON env) = true ->
   methods.transactionToJSON env tx = (result, envelope, meta, nil) ->
   methods.jsonifySlice env (db.Events tx) = (diagEvents, nil) ->
   methods.EnvelopeJSON response = envelope /\
   methods.ResultJSON response = result /\
   methods.ResultMetaJSON response = meta /\
   methods.DiagnosticEventsJSON response = diagEvents /\
   methods.EnvelopeXDR response = "" /\ methods.ResultXDR response = "" /\
   methods.ResultMetaXDR response = "" /\
   methods.DiagnosticEventsXDR response = []).
Proof.
  intros Hfmt Hwf Hrange Hfound response. subst response.
  rewrite (run_GetTransaction_parsed env reader ledgerReader request w Hfmt Hwf).
  rewrite Hrange. cbv zeta. rewrite Hfound. cbn [errors.Is fst].
  pose proof (render_result env request
      (methods.set_placement (methods.set_range methods.zero storeRange) tx) tx) as Hr.
  unfold methods.render in *.
  destruct (String.eqb (methods.Format request) (methods.FormatJSON env)).
  - destruct (methods.transactionToJSON env tx) as [[[result envelope] meta] [e|]];
      [|destruct (methods.jsonifySlice env (db.Events tx)) as [diagEvents [e|]]];
      cbn; (do 4 (split; [reflexivity|])); (split; [discriminate|]);
      intros result' envelope' meta' diag' _ Hj1 Hj2;
      try discriminate Hj1; try discriminate Hj2.
    inversion Hj1; inversion Hj2; subst. repeat split.
  - cbn. do 4 (split; [reflexivity|]). split; [|discriminate].
    intros _. repeat split.
Qed.

Lemma GetTransaction_found_fields_witness :
  let response :=
    fst (fst (runState
                (methods.GetTransaction Scenario.declared Scenario.reader
                   (db.NewLedgerReader Scenario.ErrEmptyDB)
                   (Scenario.request Scenario.hash_CC)) Scenario.warm)) in
  methods.Ledger response = 13 /\ methods.ResultXDR response = "cmVz" /\
  methods.ResultJSON response = "".
Proof.
  pose proof (GetTransaction_found_fields Scenario.declared Scenario.reader
                (db.NewLedgerReader Scenario.ErrEmptyDB)
                (Scenario.request Scenario.hash_CC) Scenario.warm _ _ _ Scenario.tx_CC
                eq_refl eq_refl eq_refl eq_refl) as H.
  cbv zeta in H |- *.
  destruct H as (_ & _ & Hl & _ & Hx & _).
  destruct (Hx eq_refl) as (_ & Hr & _ & _ & Hj & _).
  split; [exact Hl|]. split; [exact Hr | exact Hj].
Defined.

(** X17. When GetLedgerRange of the ledger reader fails, GetTransaction
    returns the zero response with an internal error (-32603) whose message
    is "unable to get ledger range: " and the text of that error, and does
    not call the transaction reader: the world is the one GetLedgerRange
    left. *)
Theorem GetTransaction_range_failure (env : methods.Declared)
    (reader : db.TransactionReader) (ledgerReader : db.LedgerReader)
    (request : methods.GetTransactionRequest) (w w1 : World)
    (storeRange : LedgerRange) (e : GoError) :
  methods.IsValidFormat env (methods.Format request) = nil ->
  well_formed_hash (methods.Hash request) = true ->
  runState (db.LedgerReader_GetLedgerRange ledgerReader) w
  = ((storeRange, Some e), w1) ->
  runState (methods.GetTransaction env reader ledgerReader request) w
  = ((methods.zero,
      Some (JrpcError (-32603) ("unable to get ledger range: " ++ Error e))), w1).
Proof.
  intros Hfmt Hwf Hrange.
  rewrite (run_GetTransaction_parsed env reader ledgerReader request w Hfmt Hwf).
  now rewrite Hrange.
Qed.

Lemma GetTransaction_range_failure_witness :
  runState (methods.GetTransaction Scenario.declared Scenario.reader
              Scenario.failing_ledger_reader (Scenario.request Scenario.hash_AA))
           Scenario.warm
  = ((methods.zero,
      Some (JrpcError (-32603) "unable to get ledger range: database is locked")),
     Scenario.warm).
Proof.
  apply (GetTransaction_range_failure Scenario.declared Scenario.reader
           Scenario.failing_ledger_reader (Scenario.request Scenario.hash_AA)
           Scenario.warm Scenario.warm zero (ErrorString "database is locked"));
    reflexivity.
Defined.

(** X18. When the transaction reader fails with an error that is not
    ErrNoTransaction and does not wrap it, GetTransaction logs the failure
    once and returns an internal error (-32603) with the text of that
    error; the response it returns beside the error has the ledger range
    and neither a status nor a field of the transaction.  An error that
    wraps ErrNoTransaction is a NOT_FOUND response without an error. *)
Theorem GetTransaction_reader_failure (env : methods.Declared)
    (reader : db.TransactionReader) (ledgerReader : db.LedgerReader)
    (request : methods.GetTransactionRequest) (w w1 w2 : World)
    (storeRange : LedgerRange) (tx : db.Transaction) (e : GoError) :
  methods.IsValidFormat env (methods.Format request) = nil ->
  well_formed_hash (methods.Hash request) = true ->
  runState (db.LedgerReader_GetLedgerRange ledgerReader) w
  = ((storeRange, nil), w1) ->
  runState (db.TransactionReader_GetTransaction reader
              (decode_hash (methods.Hash request)))
           (log (EvGetTransaction (decode_hash (methods.Hash request))) w1)
  = ((tx, Some e), w2) ->
  let '((response, err), w') :=
    runState (methods.GetTransaction env reader ledgerReader request) w in
  (errors.Is (Some e) (methods.ErrNoTransaction env) = false ->
   err = Some (JrpcError (-32603) (Error e)) /\
   w' = log (EvLogError "failed to fetch transaction") w2 /\
   methods.Status response = "" /\
   no_transaction_fields response /\
   methods.LatestLedger response = Sequence (LastLedger storeRange) /\
   methods.OldestLedger response = Sequence (FirstLedger storeRange)) /\
  (errors.Is (Some e) (methods.ErrNoTransaction env) = true ->
   err = nil /\ w' = w2 /\
   methods.Status response = methods.TransactionStatusNotFound) /\
  (forall prefix, e = Wrapf prefix (methods.ErrNoTransaction env) ->
   errors.Is (Some e) (methods.ErrNoTransaction env) = true).
Proof.
  intros Hfmt Hwf Hrange Hreader.
  rewrite (run_GetTransaction_parsed env reader ledgerReader request w Hfmt Hwf).
  rewrite Hrange. cbv zeta. rewrite Hreader.
  destruct (errors.Is (Some e) (methods.ErrNoTransaction env)) eqn:His.
  - split; [discriminate|]. split; [now repeat split|].
    intros prefix _. reflexivity.
  - split; [|split; [discriminate|]].
    + intros _. unfold no_transaction_fields. cbn. repeat split.
    + intros prefix ->.
      rewrite errors_Is_wrapped in His; [discriminate | apply errors_Is_refl].
Qed.

Lemma GetTransaction_reader_failure_witness :
  runState (methods.GetTransaction Scenario.declared Scenario.failing_reader
              (db.NewLedgerReader Scenario.ErrEmptyDB)
              (Scenario.request Scenario.hash_AA)) Scenario.warm
  = ((methods.set_range methods.zero
        {| FirstLedger := {| Sequence := 10; CloseTime := 1700000010 |};
           LastLedger := {| Sequence := 20; CloseTime := 1700000020 |} |},
      Some (JrpcError (-32603) "database is locked")),
     log (EvLogError "failed to fetch transaction")
       (log (EvGetTransaction (decode_hash Scenario.hash_AA))
          (log (EvQuery db.oldest_query) Scenario.warm))) /\
  snd (fst (runState (methods.GetTransaction Scenario.declared Scenario.failing_reader
                        (db.NewLedgerReader Scenario.ErrEmptyDB)
                        (Scenario.request Scenario.hash_AA)) Scenario.warm))
  = Some (JrpcError (-32603) "database is locked").
Proof.
  split; [reflexivity|].
  pose proof (GetTransaction_reader_failure Scenario.declared Scenario.failing_reader
                (db.NewLedgerReader Scenario.ErrEmptyDB)
                (Scenario.request Scenario.hash_AA) Scenario.warm _ _ _
                Scenario.no_tx (ErrorString "database is locked")
                eq_refl eq_refl eq_refl eq_refl) as H.
  destruct (runState (methods.GetTransaction Scenario.declared Scenario.failing_reader
                        (db.NewLedgerReader Scenario.ErrEmptyDB)
                        (Scenario.request Scenario.hash_AA)) Scenario.warm)
    as [[response err] w'].
  destruct H as (H & _). destruct (H eq_refl) as (He & _). exact He.
Defined.

(** X19. In the JSON format a conversion that fails is an internal error
    (-32603) with the text of the conversion's error, whether it is the
    conversion of the transaction or, after that one succeeded, of the
    diagnostic events; the response returned beside it has no status and
    none of the envelope, result, meta and event fields. *)
Theorem GetTransaction_conversion_failure (env : methods.Declared)
    (reader : db.TransactionReader) (ledgerReader : db.LedgerReader)
    (request : methods.GetTransactionRequest) (w w1 w2 : World)
    (storeRange : LedgerRange) (tx : db.Transaction) (e : GoError) :
  methods.IsValidFormat env (methods.Format request) = nil ->
  well_formed_hash (methods.Hash request) = true ->
  String.eqb (methods.Format request) (methods.FormatJSON env) = true ->
  runState (db.LedgerReader_GetLedgerRange ledgerReader) w
  = ((storeRange, nil), w1) ->
  runState (db.TransactionReader_GetTransaction reader
              (decode_hash (methods.Hash request)))
           (log (EvGetTransaction (decode_hash (methods.Hash request))) w1)
  = ((tx, nil), w2) ->
  snd (methods.transactionToJSON env tx) = Some e \/
  (snd (methods.transactionToJSON env tx) = nil /\
   snd (methods.jsonifySlice env (db.Events tx)) = Some e) ->
  runState (methods.GetTransaction env reader ledgerReader request) w
  = ((methods.set_placement (methods.set_range methods.zero storeRange) tx,
      Some (JrpcError (-32603) (Error e))), w2).
Proof.
  intros Hfmt Hwf Hjson Hrange Hfound Hconv.
  rewrite (run_GetTransaction_parsed env reader ledgerReader request w Hfmt Hwf).
  rewrite Hrange. cbv zeta. rewrite Hfound. cbn [errors.Is].
  unfold methods.render. rewrite Hjson.
  destruct (methods.transactionToJSON env tx) as [[[result envelope] meta] [e1|]];
    cbn in Hconv.
  - destruct Hconv as [Hc|[Hc _]]; [|discriminate]. now inversion Hc.
  - destruct Hconv as [Hc|[_ Hc]]; [discriminate|].
    destruct (methods.jsonifySlice env (db.Events tx)) as [diagEvents [e2|]];
      cbn in Hc; [|discriminate].
    now inversion Hc.
Qed.

Lemma GetTransaction_conversion_failure_witness :
  runState (methods.GetTransaction Scenario.declared_without_json Scenario.reader
              (db.NewLedgerReader Scenario.ErrEmptyDB)
              (Scenario.json_request Scenario.hash_AA)) Scenario.warm
  = ((methods.set_placement
        (methods.set_range methods.zero
           {| FirstLedger := {| Sequence := 10; CloseTime := 1700000010 |};
              LastLedger := {| Sequence := 20; CloseTime := 1700000020 |} |})
        Scenario.tx_AA,
      Some (JrpcError (-32603) "unsupported type")),
     log (EvGetTransaction (decode_hash Scenario.hash_AA))
       (log (EvQuery db.oldest_query) Scenario.warm)).
Proof.
  apply (GetTransaction_conversion_failure Scenario.declared_without_json
           Scenario.reader (db.NewLedgerReader Scenario.ErrEmptyDB)
           (Scenario.json_request Scenario.hash_AA) Scenario.warm _ _ _
           Scenario.tx_AA (ErrorString "unsupported type")
           eq_refl eq_refl eq_refl eq_refl eq_refl).
  left. reflexivity.
Defined.

(* ================================================================== *)
(** ** The hash as a lookup key *)

Lemma reverseHexTable_fold_case (c : ascii) :
  hex.reverseHexTable (fold_case c) = hex.reverseHexTable c.
Proof. destruct c as [[] [] [] [] [] [] [] []]; reflexivity. Qed.

Lemma fold_case_not_hex (c : ascii) :
  (15 <? hex.reverseHexTable c) = true -> fold_case c = c.
Proof. destruct c as [[] [] [] [] [] [] [] []]; intros H; try reflexivity; discriminate H. Qed.

Lemma reverseHexTable_nonneg (c : ascii) : 0 <= hex.reverseHexTable c.
Proof. destruct c as [[] [] [] [] [] [] [] []]; vm_compute; discriminate. Qed.

(** The digit of a value below 16, in lower case. *)
Lemma fold_case_of_value (c : ascii) :
  (15 <? hex.reverseHexTable c) = false ->
  fold_case c
  = byte_of (if hex.reverseHexTable c <? 10 then 48 + hex.reverseHexTable c
             else 87 + hex.reverseHexTable c) /\
  0 <= hex.reverseHexTable c <= 15.
Proof.
  intros H. split.
  - revert H. destruct c as [[] [] [] [] [] [] [] []]; intros H;
      try discriminate H; reflexivity.
  - apply Z.ltb_ge in H. pose proof (reverseHexTable_nonneg c). lia.
Qed.

Lemma same_value_same_fold (c c' : ascii) :
  fold_case c = fold_case c' -> hex.reverseHexTable c = hex.reverseHexTable c'.
Proof.
  intros H. rewrite <- (reverseHexTable_fold_case c), H.
  apply reverseHexTable_fold_case.
Qed.

(** hex.Decode does not see the case of the letters. *)
Lemma Decode_fold_case (src : list ascii) :
  forall src', map fold_case src = map fold_case src' ->
               hex.Decode src = hex.Decode src'.
Proof.
  induction src as [|p|p q src IH] using list_pair_ind; intros src' H.
  - destruct src'; [reflexivity | discriminate].
  - destruct src' as [|p' [|? ?]]; try discriminate.
    cbn in H. inversion H as [Hp]. cbn [hex.Decode].
    rewrite (same_value_same_fold p p' Hp).
    destruct (15 <? hex.reverseHexTable p') eqn:E; [|reflexivity].
    assert (E' : (15 <? hex.reverseHexTable p) = true)
      by (now rewrite (same_value_same_fold p p' Hp)).
    rewrite <- (fold_case_not_hex p E'), Hp, (fold_case_not_hex p' E). reflexivity.
  - destruct src' as [|p' [|q' src']]; try discriminate.
    cbn [map] in H. inversion H as [[Hp Hq Hrest]].
    cbn [hex.Decode].
    rewrite (same_value_same_fold p p' Hp), (same_value_same_fold q q' Hq).
    destruct (15 <? hex.reverseHexTable p') eqn:Ep.
    + assert (E' : (15 <? hex.reverseHexTable p) = true)
        by (now rewrite (same_value_same_fold p p' Hp)).
      rewrite <- (fold_case_not_hex p E'), Hp, (fold_case_not_hex p' Ep). reflexivity.
    + destruct (15 <? hex.reverseHexTable q') eqn:Eq.
      * assert (E' : (15 <? hex.reverseHexTable q) = true)
          by (now rewrite (same_value_same_fold q q' Hq)).
        rewrite <- (fold_case_not_hex q E'), Hq, (fold_case_not_hex q' Eq). reflexivity.
      * now rewrite (IH src' Hrest).
Qed.

(** X20. getTransaction does not see the case of the hex letters of the
    hash: two requests in one format whose hashes differ only in the case
    of A..F return the same response and error and leave the same world, so
    the transaction reader is asked for the same 32 bytes. *)
Theorem GetTransaction_ignores_hash_case (env : methods.Declared)
    (reader : db.TransactionReader) (ledgerReader : db.LedgerReader)
    (format h1 h2 : string) (w : World) :
  map fold_case (list_ascii_of_string h1) = map fold_case (list_ascii_of_string h2) ->
  decode_hash h1 = decode_hash h2 /\
  runState (methods.GetTransaction env reader ledgerReader
              {| methods.Hash := h1; methods.Format := format |}) w
  = runState (methods.GetTransaction env reader ledgerReader
                {| methods.Hash := h2; methods.Format := format |}) w.
Proof.
  intros H.
  pose proof (Decode_fold_case _ _ H) as Hd.
  assert (Hlen : String.length h1 = String.length h2).
  { rewrite <- !length_list_ascii_of_string.
    rewrite <- (length_map fold_case (list_ascii_of_string h1)), H.
    apply length_map. }
  split.
  - unfold decode_hash. now rewrite Hd.
  - unfold methods.GetTransaction. cbn [methods.Hash methods.Format].
    now rewrite Hlen, Hd.
Qed.

Lemma GetTransaction_ignores_hash_case_witness :
  runState (methods.GetTransaction Scenario.declared Scenario.reader
              (db.NewLedgerReader Scenario.ErrEmptyDB)
              (Scenario.request Scenario.hash_AA)) Scenario.warm
  = runState (methods.GetTransaction Scenario.declared Scenario.reader
                (db.NewLedgerReader Scenario.ErrEmptyDB)
                (Scenario.request Scenario.hash_aa)) Scenario.warm.
Proof.
  apply (proj2 (GetTransaction_ignores_hash_case Scenario.declared Scenario.reader
                  (db.NewLedgerReader Scenario.ErrEmptyDB) ""
                  Scenario.hash_AA Scenario.hash_aa Scenario.warm eq_refl)).
Defined.

Lemma byte_of_inj (x y : Z) :
  0 <= x < 256 -> 0 <= y < 256 -> byte_of x = byte_of y -> x = y.
Proof.
  intros Hx Hy H. unfold byte_of in H.
  apply (f_equal N_of_ascii) in H.
  rewrite !N_ascii_embedding in H by lia. lia.
Qed.

Lemma nibbles (a b : Z) :
  0 <= a <= 15 -> 0 <= b <= 15 -> Z.lor (Z.shiftl a 4) b = 16 * a + b.
Proof.
  intros Ha Hb.
  assert (Ca : a = 0 \/ a = 1 \/ a = 2 \/ a = 3 \/ a = 4 \/ a = 5 \/ a = 6 \/ a = 7 \/
               a = 8 \/ a = 9 \/ a = 10 \/ a = 11 \/ a = 12 \/ a = 13 \/ a = 14 \/ a = 15)
    by lia.
  assert (Cb : b = 0 \/ b = 1 \/ b = 2 \/ b = 3 \/ b = 4 \/ b = 5 \/ b = 6 \/ b = 7 \/
               b = 8 \/ b = 9 \/ b = 10 \/ b = 11 \/ b = 12 \/ b = 13 \/ b = 14 \/ b = 15)
    by lia.
  repeat (destruct Ca as [->|Ca]); try subst a;
    repeat (destruct Cb as [->|Cb]); try subst b; reflexivity.
Qed.

Lemma Decode_pair (p q : ascii) (rest : list ascii) :
  hex.Decode (p :: q :: rest)
  = if 15 <? hex.reverseHexTable p then ([], Some (InvalidByteError p))
    else if 15 <? hex.reverseHexTable q then ([], Some (InvalidByteError q))
    else let '(written, err) := hex.Decode rest in
         (byte_of (Z.lor (Z.shiftl (hex.reverseHexTable p) 4) (hex.reverseHexTable q))
            :: written, err).
Proof. reflexivity. Qed.

(** Two strings that hex.Decode turns into the same bytes differ only in
    the case of their letters. *)
Lemma Decode_same_bytes (src : list ascii) :
  forall src' written,
    hex.Decode src = (written, nil) -> hex.Decode src' = (written, nil) ->
    map fold_case src = map fold_case src'.
Proof.
  induction src as [|p|p q src IH] using list_pair_ind; intros src' written H H'.
  - cbn in H. inversion H; subst written.
    destruct src' as [|p' [|q' src']]; [reflexivity| |]; cbn in H'.
    + destruct (15 <? hex.reverseHexTable p'); discriminate.
    + destruct (15 <? hex.reverseHexTable p'); [discriminate|].
      destruct (15 <? hex.reverseHexTable q'); [discriminate|].
      destruct (hex.Decode src'). discriminate.
  - cbn in H. destruct (15 <? hex.reverseHexTable p); discriminate.
  - rewrite Decode_pair in H.
    destruct (15 <? hex.reverseHexTable p) eqn:Ep; [discriminate|].
    destruct (15 <? hex.reverseHexTable q) eqn:Eq; [discriminate|].
    destruct (hex.Decode src) as [wr err] eqn:Hd.
    injection H as Hwritten Herr0. subst written err.
    destruct src' as [|p' [|q' src']].
    + discriminate.
    + cbn in H'. destruct (15 <? hex.reverseHexTable p'); discriminate.
    + rewrite Decode_pair in H'.
      destruct (15 <? hex.reverseHexTable p') eqn:Ep'; [discriminate|].
      destruct (15 <? hex.reverseHexTable q') eqn:Eq'; [discriminate|].
      destruct (hex.Decode src') as [wr' err'] eqn:Hd'.
      injection H' as Hbyte Hwr Herr. subst wr' err'.
      destruct (fold_case_of_value p Ep) as [Fp Rp].
      destruct (fold_case_of_value q Eq) as [Fq Rq].
      destruct (fold_case_of_value p' Ep') as [Fp' Rp'].
      destruct (fold_case_of_value q' Eq') as [Fq' Rq'].
      assert (Hv : 16 * hex.reverseHexTable p' + hex.reverseHexTable q'
                   = 16 * hex.reverseHexTable p + hex.reverseHexTable q).
      { apply byte_of_inj; [lia | lia |].
        rewrite <- (nibbles _ _ Rp Rq), <- (nibbles _ _ Rp' Rq'). exact Hbyte. }
      assert (Ea : hex.reverseHexTable p' = hex.reverseHexTable p) by lia.
      assert (Eb : hex.reverseHexTable q' = hex.reverseHexTable q) by lia.
      cbn [map]. rewrite Fp, Fq, Fp', Fq', Ea, Eb.
      f_equal. f_equal. exact (IH src' wr eq_refl Hd').
Qed.

Lemma Hash_of_32 (written : list ascii) :
  List.length written = 32%nat -> xdr.Hash_of written = written.
Proof.
  intros H. unfold xdr.Hash_of.
  rewrite firstn_app, H, Nat.sub_diag. rewrite <- H at 1.
  rewrite firstn_all. apply app_nil_r.
Qed.

(** X21. Distinct hashes are distinct keys: two well-formed hashes give
    the transaction reader the same 32 bytes exactly when they differ at
    most in the case of their hex letters. *)
Theorem decode_hash_is_injective (h1 h2 : string) :
  well_formed_hash h1 = true -> well_formed_hash h2 = true ->
  (decode_hash h1 = decode_hash h2 <->
   map fold_case (list_ascii_of_string h1) = map fold_case (list_ascii_of_string h2)) /\
  List.length (decode_hash h1) = 32%nat.
Proof.
  intros H1 H2.
  apply well_formed_hash_decodes in H1 as (wr1 & Hd1 & Hl1).
  apply well_formed_hash_decodes in H2 as (wr2 & Hd2 & Hl2).
  unfold decode_hash. rewrite Hd1, Hd2. cbn [fst].
  rewrite (Hash_of_32 wr1 Hl1), (Hash_of_32 wr2 Hl2).
  split; [|exact Hl1]. split.
  - intros E. subst wr2. exact (Decode_same_bytes _ _ _ Hd1 Hd2).
  - intros E. pose proof (Decode_fold_case _ _ E) as Hd.
    rewrite Hd1, Hd2 in Hd. now inversion Hd.
Qed.

Lemma decode_hash_is_injective_witness :
  decode_hash Scenario.hash_AA = decode_hash Scenario.hash_aa /\
  decode_hash Scenario.hash_AA <> decode_hash Scenario.hash_BB.
Proof.
  split.
  - apply (proj1 (decode_hash_is_injective Scenario.hash_AA Scenario.hash_aa
                    eq_refl eq_refl)).
    reflexivity.
  - intros E.
    apply (proj1 (decode_hash_is_injective Scenario.hash_AA Scenario.hash_BB
                    eq_refl eq_refl)) in E.
    discriminate E.
Defined.
